(** * The virtual whiteboard: stroke capture, undo/redo history and rendering

    A shallow embedding of the [VirtualWhiteboard] React component
    (the canvas widget of the education platform) and the proofs of the
    properties its specification states about it.

    Conventions of the embedding.
    - A JavaScript [number] is an IEEE 754 binary64 value: Rocq's primitive
      [float].  [Date.now()] yields an integral number of milliseconds and is
      kept as a [Z].
    - An array is a [list]; the spread [[...a, v]] is [a ++ [v]] and
      [[v, ...a]] is [v :: a].
    - The component's [useState] cells are the fields of one record [State].
      A handler is a function from the state of the render it closes over to
      the state of the next render: every [setX] call of the handler is
      applied, in order, before another handler runs.
    - The 2D context is modelled by the sequence of calls made on it
      ([CanvasOp]); [paint] then replays such a sequence the way the canvas
      API defines it and yields the shapes that reach the bitmap.
    - The related [NoteTaking] component is embedded at the end; its strings
      are trimmed and compared, and are sequences of UTF-16 code units. *)

From Stdlib Require Import String Ascii DecimalString DecimalZ.
From Stdlib Require Import Bool Arith Lia ZArith Floats List.
Import ListNotations.

Local Open Scope string_scope.
Local Open Scope list_scope.
Local Open Scope nat_scope.

(** ** Data model *)

(** [type Tool = 'pen' | 'eraser' | 'rectangle' | 'circle' | 'text' | 'move'] *)
Inductive Tool : Type :=
| pen | eraser | rectangle | circle | text | move.

Definition Tool_eqb (a b : Tool) : bool :=
  match a, b with
  | pen, pen | eraser, eraser | rectangle, rectangle
  | circle, circle | text, text | move, move => true
  | _, _ => false
  end.

(** [{ x: number; y: number }] *)
Module Point.
Record t : Type := mk { x : float; y : float }.
End Point.
Abbreviation Point := Point.t.

(** [interface DrawingPath] *)
Module DrawingPath.
Record t : Type := mk {
  id : string;
  tool : Tool;
  points : list Point;
  color : string;
  strokeWidth : float;
  timestamp : Z
}.
End DrawingPath.
Abbreviation DrawingPath := DrawingPath.t.

(** [interface WhiteboardProps], with the defaults of the destructuring
    pattern applied by [defaultProps]. *)
Record WhiteboardProps : Type := {
  width : float;
  height : float;
  isReadOnly : bool;
  sessionId : option string
}.

Definition defaultProps : WhiteboardProps :=
  {| width := 800; height := 600; isReadOnly := false; sessionId := None |}.

(** The [useState] cells of the component. *)
Record State : Type := {
  isDrawing : bool;
  currentTool : Tool;
  strokeColor : string;
  strokeWidth : float;
  paths : list DrawingPath;
  undoStack : list (list DrawingPath);
  redoStack : list (list DrawingPath);
  currentPath : option DrawingPath
}.

(** The initial values passed to [useState]. *)
Definition initialState : State :=
  {| isDrawing := false;
     currentTool := pen;
     strokeColor := "#000000";
     strokeWidth := 2;
     paths := [];
     undoStack := [];
     redoStack := [];
     currentPath := None |}.

Definition colors : list string :=
  ["#000000"; "#FF0000"; "#00FF00"; "#0000FF";
   "#FFFF00"; "#FF00FF"; "#00FFFF"; "#FFA500"].

Definition strokeWidths : list float := [1; 2; 4; 8; 12]%float.

(** State setters.  [setX v] is the plain form, [setX_with f] the functional
    form [setX(prev => f prev)]. *)
Definition setIsDrawing (v : bool) (s : State) : State :=
  {| isDrawing := v; currentTool := currentTool s;
     strokeColor := strokeColor s; strokeWidth := strokeWidth s;
     paths := paths s; undoStack := undoStack s; redoStack := redoStack s;
     currentPath := currentPath s |}.

Definition setCurrentTool (v : Tool) (s : State) : State :=
  {| isDrawing := isDrawing s; currentTool := v;
     strokeColor := strokeColor s; strokeWidth := strokeWidth s;
     paths := paths s; undoStack := undoStack s; redoStack := redoStack s;
     currentPath := currentPath s |}.

Definition setStrokeColor (v : string) (s : State) : State :=
  {| isDrawing := isDrawing s; currentTool := currentTool s;
     strokeColor := v; strokeWidth := strokeWidth s;
     paths := paths s; undoStack := undoStack s; redoStack := redoStack s;
     currentPath := currentPath s |}.

Definition setStrokeWidth (v : float) (s : State) : State :=
  {| isDrawing := isDrawing s; currentTool := currentTool s;
     strokeColor := strokeColor s; strokeWidth := v;
     paths := paths s; undoStack := undoStack s; redoStack := redoStack s;
     currentPath := currentPath s |}.

Definition setPaths_with (f : list DrawingPath -> list DrawingPath)
    (s : State) : State :=
  {| isDrawing := isDrawing s; currentTool := currentTool s;
     strokeColor := strokeColor s; strokeWidth := strokeWidth s;
     paths := f (paths s); undoStack := undoStack s;
     redoStack := redoStack s; currentPath := currentPath s |}.

Definition setPaths (v : list DrawingPath) : State -> State :=
  setPaths_with (fun _ => v).

Definition setUndoStack_with
    (f : list (list DrawingPath) -> list (list DrawingPath))
    (s : State) : State :=
  {| isDrawing := isDrawing s; currentTool := currentTool s;
     strokeColor := strokeColor s; strokeWidth := strokeWidth s;
     paths := paths s; undoStack := f (undoStack s);
     redoStack := redoStack s; currentPath := currentPath s |}.

Definition setRedoStack_with
    (f : list (list DrawingPath) -> list (list DrawingPath))
    (s : State) : State :=
  {| isDrawing := isDrawing s; currentTool := currentTool s;
     strokeColor := strokeColor s; strokeWidth := strokeWidth s;
     paths := paths s; undoStack := undoStack s;
     redoStack := f (redoStack s); currentPath := currentPath s |}.

Definition setRedoStack (v : list (list DrawingPath)) : State -> State :=
  setRedoStack_with (fun _ => v).

Definition setCurrentPath (v : option DrawingPath) (s : State) : State :=
  {| isDrawing := isDrawing s; currentTool := currentTool s;
     strokeColor := strokeColor s; strokeWidth := strokeWidth s;
     paths := paths s; undoStack := undoStack s; redoStack := redoStack s;
     currentPath := v |}.

(** ** The canvas *)

(** The calls [redrawCanvas] and [drawPath] make on the 2D context; a
    property assignment [ctx.p = v] is the call [set_p v]. *)
Inductive CanvasOp : Type :=
| clearRect (x y w h : float)
| set_fillStyle (v : string)
| fillRect (x y w h : float)
| save
| restore
| set_strokeStyle (v : string)
| set_lineWidth (v : float)
| set_lineCap (v : string)
| set_lineJoin (v : string)
| set_globalCompositeOperation (v : string)
| beginPath
| moveTo (x y : float)
| lineTo (x y : float)
| strokeRect (x y w h : float)
| arc (x y radius startAngle endAngle : float)
| stroke.

(** [Math.PI], the binary64 value nearest to pi. *)
Definition Math_PI : float := 0x1.921fb54442d18p+1%float.

(** [Math.pow(b, 2)]: the square, one rounded multiplication. *)
Definition Math_pow2 (b : float) : float := (b * b)%float.

(** [Math.sqrt] *)
Definition Math_sqrt (v : float) : float := PrimFloat.sqrt v.

Definition origin : Point := Point.mk 0 0.

(** [drawPath(ctx, path)], as the list of the calls it makes on [ctx].
    [p0] is [path.points[0]] and [pN] is
    [path.points[path.points.length - 1]]; the guard on the length makes
    both reads fall inside the array. *)
Definition drawPath (path : DrawingPath) : list CanvasOp :=
  let pts := DrawingPath.points path in
  if length pts <? 2 then [] else
  let p0 := nth 0 pts origin in
  let pN := nth (length pts - 1) pts origin in
  [ save;
    set_strokeStyle (DrawingPath.color path);
    set_lineWidth (DrawingPath.strokeWidth path);
    set_lineCap "round";
    set_lineJoin "round";
    set_globalCompositeOperation
      (if Tool_eqb (DrawingPath.tool path) eraser
       then "destination-out" else "source-over");
    beginPath;
    moveTo (Point.x p0) (Point.y p0) ]
  ++ map (fun p => lineTo (Point.x p) (Point.y p)) (skipn 1 pts)
  ++ (if Tool_eqb (DrawingPath.tool path) rectangle && (2 <=? length pts)
      then
        let start := p0 in
        let end_ := pN in
        [ clearRect 0 0 0 0;
          strokeRect (Point.x start) (Point.y start)
                     (Point.x end_ - Point.x start)
                     (Point.y end_ - Point.y start) ]
      else if Tool_eqb (DrawingPath.tool path) circle && (2 <=? length pts)
      then
        let start := p0 in
        let end_ := pN in
        let radius :=
          Math_sqrt (Math_pow2 (Point.x end_ - Point.x start)
                     + Math_pow2 (Point.y end_ - Point.y start)) in
        [ clearRect 0 0 0 0;
          beginPath;
          arc (Point.x start) (Point.y start) radius 0 (2 * Math_PI) ]
      else [])
  ++ [ stroke; restore ].

(** *** What a sequence of context calls paints

    The part of the canvas 2D context the component relies on.  The drawing
    state ([save]/[restore] push and pop it) holds the styles; the current
    path is not part of it.  A call with an infinite or NaN argument is
    ignored, and so is a line width that is not positive; style strings are
    taken to be valid, as the constants of the component and the colours of
    its palette are; [clearRect] and [fillRect] with a zero width or height and
    [strokeRect] with both of them zero do nothing; [strokeRect] paints its
    outline without touching the current path; [stroke] paints the current
    path; [beginPath] empties it. *)

Record DrawingState : Type := {
  fillStyle : string;
  strokeStyle : string;
  lineWidth : float;
  lineCap : string;
  lineJoin : string;
  globalCompositeOperation : string
}.

(** The defaults of a fresh context. *)
Definition defaultDrawingState : DrawingState :=
  {| fillStyle := "#000000"; strokeStyle := "#000000"; lineWidth := 1;
     lineCap := "butt"; lineJoin := "miter";
     globalCompositeOperation := "source-over" |}.

(** The pieces of the current path. *)
Inductive Segment : Type :=
| MoveTo (x y : float)
| LineTo (x y : float)
| Arc (x y radius startAngle endAngle : float).

(** What reaches the bitmap, in painting order. *)
Inductive Shape : Type :=
| Cleared (x y w h : float)
| FilledRect (x y w h : float) (st : DrawingState)
| StrokedRect (x y w h : float) (st : DrawingState)
| StrokedPath (segments : list Segment) (st : DrawingState).

Record Context2D : Type := {
  drawingState : DrawingState;
  savedStates : list DrawingState;
  currentSubpaths : list Segment;
  bitmap : list Shape
}.

Definition freshContext : Context2D :=
  {| drawingState := defaultDrawingState; savedStates := [];
     currentSubpaths := []; bitmap := [] |}.

Definition is_zero (v : float) : bool := PrimFloat.eqb v 0.

Definition all_finite (args : list float) : bool :=
  forallb PrimFloat.is_finite args.

Definition with_state (f : DrawingState -> DrawingState) (c : Context2D)
    : Context2D :=
  {| drawingState := f (drawingState c); savedStates := savedStates c;
     currentSubpaths := currentSubpaths c; bitmap := bitmap c |}.

Definition with_path (f : list Segment -> list Segment) (c : Context2D)
    : Context2D :=
  {| drawingState := drawingState c; savedStates := savedStates c;
     currentSubpaths := f (currentSubpaths c); bitmap := bitmap c |}.

Definition emit (sh : Shape) (c : Context2D) : Context2D :=
  {| drawingState := drawingState c; savedStates := savedStates c;
     currentSubpaths := currentSubpaths c; bitmap := bitmap c ++ [sh] |}.

Definition exec (c : Context2D) (op : CanvasOp) : Context2D :=
  let st := drawingState c in
  match op with
  | clearRect x y w h =>
      if negb (all_finite [x; y; w; h]) || is_zero w || is_zero h then c
      else emit (Cleared x y w h) c
  | set_fillStyle v =>
      with_state (fun d =>
        {| fillStyle := v; strokeStyle := strokeStyle d;
           lineWidth := lineWidth d; lineCap := lineCap d;
           lineJoin := lineJoin d;
           globalCompositeOperation := globalCompositeOperation d |}) c
  | fillRect x y w h =>
      if negb (all_finite [x; y; w; h]) || is_zero w || is_zero h then c
      else emit (FilledRect x y w h st) c
  | save =>
      {| drawingState := st; savedStates := st :: savedStates c;
         currentSubpaths := currentSubpaths c; bitmap := bitmap c |}
  | restore =>
      match savedStates c with
      | [] => c
      | d :: rest =>
          {| drawingState := d; savedStates := rest;
             currentSubpaths := currentSubpaths c; bitmap := bitmap c |}
      end
  | set_strokeStyle v =>
      with_state (fun d =>
        {| fillStyle := fillStyle d; strokeStyle := v;
           lineWidth := lineWidth d; lineCap := lineCap d;
           lineJoin := lineJoin d;
           globalCompositeOperation := globalCompositeOperation d |}) c
  | set_lineWidth v =>
      if negb (PrimFloat.is_finite v && PrimFloat.ltb 0 v) then c else
      with_state (fun d =>
        {| fillStyle := fillStyle d; strokeStyle := strokeStyle d;
           lineWidth := v; lineCap := lineCap d; lineJoin := lineJoin d;
           globalCompositeOperation := globalCompositeOperation d |}) c
  | set_lineCap v =>
      with_state (fun d =>
        {| fillStyle := fillStyle d; strokeStyle := strokeStyle d;
           lineWidth := lineWidth d; lineCap := v; lineJoin := lineJoin d;
           globalCompositeOperation := globalCompositeOperation d |}) c
  | set_lineJoin v =>
      with_state (fun d =>
        {| fillStyle := fillStyle d; strokeStyle := strokeStyle d;
           lineWidth := lineWidth d; lineCap := lineCap d; lineJoin := v;
           globalCompositeOperation := globalCompositeOperation d |}) c
  | set_globalCompositeOperation v =>
      with_state (fun d =>
        {| fillStyle := fillStyle d; strokeStyle := strokeStyle d;
           lineWidth := lineWidth d; lineCap := lineCap d;
           lineJoin := lineJoin d; globalCompositeOperation := v |}) c
  | beginPath => with_path (fun _ => []) c
  | moveTo x y =>
      if negb (all_finite [x; y]) then c
      else with_path (fun sp => sp ++ [MoveTo x y]) c
  | lineTo x y =>
      if negb (all_finite [x; y]) then c
      else with_path (fun sp => sp ++ [LineTo x y]) c
  | arc x y r a0 a1 =>
      if negb (all_finite [x; y; r; a0; a1]) then c
      else with_path (fun sp => sp ++ [Arc x y r a0 a1]) c
  | strokeRect x y w h =>
      if negb (all_finite [x; y; w; h]) || (is_zero w && is_zero h) then c
      else emit (StrokedRect x y w h st) c
  | stroke => emit (StrokedPath (currentSubpaths c) st) c
  end.

Definition run_ops (c : Context2D) (ops : list CanvasOp) : Context2D :=
  fold_left exec ops c.

(** The shapes a sequence of calls paints on a fresh context. *)
Definition paint (ops : list CanvasOp) : list Shape :=
  bitmap (run_ops freshContext ops).

(** The style [drawPath] sets up for a path. *)
Definition path_style (path : DrawingPath) : DrawingState :=
  {| fillStyle := fillStyle defaultDrawingState;
     strokeStyle := DrawingPath.color path;
     lineWidth := DrawingPath.strokeWidth path;
     lineCap := "round";
     lineJoin := "round";
     globalCompositeOperation :=
       if Tool_eqb (DrawingPath.tool path) eraser
       then "destination-out" else "source-over" |}.

(** ** Input capture and history *)

(** The part of the DOM the handlers read. *)
Record DOMRect : Type := { left : float; top : float }.

Record HTMLCanvasElement : Type := {
  canvas_width : float;
  canvas_height : float;
  getBoundingClientRect : DOMRect;
  has_context_2d : bool
}.

Record MouseEvent : Type := { clientX : float; clientY : float }.

(** [Date.now().toString()] *)
Definition toString (n : Z) : string := NilZero.string_of_int (Z.to_int n).

(** [getMousePos(e)]; [canvas] is [canvasRef.current]. *)
Definition getMousePos (canvas : option HTMLCanvasElement) (e : MouseEvent)
    : Point :=
  match canvas with
  | None => Point.mk 0 0
  | Some cv =>
      let rect := getBoundingClientRect cv in
      Point.mk (clientX e - left rect) (clientY e - top rect)
  end.

(** [redrawCanvas()], as the calls made on the context. *)
Definition redrawCanvas (canvas : option HTMLCanvasElement) (s : State)
    : list CanvasOp :=
  match canvas with
  | None => []
  | Some cv =>
      if negb (has_context_2d cv) then [] else
      [ clearRect 0 0 (canvas_width cv) (canvas_height cv);
        set_fillStyle "#ffffff";
        fillRect 0 0 (canvas_width cv) (canvas_height cv) ]
      ++ flat_map drawPath (paths s)
      ++ match currentPath s with
         | Some cp => if isDrawing s then drawPath cp else []
         | None => []
         end
  end.

Section Handlers.

Variable props : WhiteboardProps.

(** [startDrawing(e)]; [now_id] and [now_ts] are the values of its two
    [Date.now()] calls. *)
Definition startDrawing (canvas : option HTMLCanvasElement) (e : MouseEvent)
    (now_id now_ts : Z) (s : State) : State :=
  if isReadOnly props then s else
  let pos := getMousePos canvas e in
  let newPath :=
    {| DrawingPath.id := toString now_id;
       DrawingPath.tool := currentTool s;
       DrawingPath.points := [pos];
       DrawingPath.color := strokeColor s;
       DrawingPath.strokeWidth := strokeWidth s;
       DrawingPath.timestamp := now_ts |} in
  setCurrentPath (Some newPath) (setIsDrawing true s).

(** [draw(e)].  Its [redrawCanvas()] call paints and leaves the state
    alone. *)
Definition draw (canvas : option HTMLCanvasElement) (e : MouseEvent)
    (s : State) : State :=
  match currentPath s with
  | None => s
  | Some cp =>
      if negb (isDrawing s) || isReadOnly props then s else
      let pos := getMousePos canvas e in
      let updatedPath :=
        {| DrawingPath.id := DrawingPath.id cp;
           DrawingPath.tool := DrawingPath.tool cp;
           DrawingPath.points := DrawingPath.points cp ++ [pos];
           DrawingPath.color := DrawingPath.color cp;
           DrawingPath.strokeWidth := DrawingPath.strokeWidth cp;
           DrawingPath.timestamp := DrawingPath.timestamp cp |} in
      setCurrentPath (Some updatedPath) s
  end.

(** [stopDrawing()] *)
Definition stopDrawing (s : State) : State :=
  match currentPath s with
  | None => s
  | Some cp =>
      if negb (isDrawing s) then s else
      setCurrentPath None
        (setPaths_with (fun prev => prev ++ [cp])
          (setRedoStack []
            (setUndoStack_with (fun prev => prev ++ [paths s])
              (setIsDrawing false s))))
  end.

(** [undo()]: [previousState] is [undoStack[undoStack.length - 1]] and
    [prev.slice(0, -1)] keeps all but the last entry. *)
Definition undo (s : State) : State :=
  if length (undoStack s) =? 0 then s else
  let previousState := nth (length (undoStack s) - 1) (undoStack s) [] in
  setUndoStack_with (fun prev => firstn (length prev - 1) prev)
    (setPaths previousState
      (setRedoStack_with (fun prev => paths s :: prev) s)).

(** [redo()]: [nextState] is [redoStack[0]] and [prev.slice(1)] drops the
    first entry. *)
Definition redo (s : State) : State :=
  if length (redoStack s) =? 0 then s else
  let nextState := nth 0 (redoStack s) [] in
  setRedoStack_with (fun prev => skipn 1 prev)
    (setPaths nextState
      (setUndoStack_with (fun prev => prev ++ [paths s]) s)).

(** [clearCanvas()] *)
Definition clearCanvas (s : State) : State :=
  setPaths []
    (setRedoStack []
      (setUndoStack_with (fun prev => prev ++ [paths s]) s)).

(** The events the rendered component reacts to: the four listeners of the
    [<canvas>] element and the [onClick] of the toolbar buttons.  A mouse-down
    carries what [startDrawing] reads from its environment.  The [disabled]
    attribute of a button only withholds its click: the handlers are modelled
    on every state. *)
Inductive Event : Type :=
| onMouseDown (canvas : option HTMLCanvasElement) (e : MouseEvent)
              (now_id now_ts : Z)
| onMouseMove (canvas : option HTMLCanvasElement) (e : MouseEvent)
| onMouseUp
| onMouseLeave
| clickTool (t : Tool)
| clickColor (c : string)
| clickWidth (w : float)
| clickUndo
| clickRedo
| clickClear
| clickDownload.

(** The listener bound to each event in the JSX. *)
Definition handle (ev : Event) (s : State) : State :=
  match ev with
  | onMouseDown canvas e now_id now_ts => startDrawing canvas e now_id now_ts s
  | onMouseMove canvas e => draw canvas e s
  | onMouseUp => stopDrawing s
  | onMouseLeave => stopDrawing s
  | clickTool t => setCurrentTool t s
  | clickColor c => setStrokeColor c s
  | clickWidth w => setStrokeWidth w s
  | clickUndo => undo s
  | clickRedo => redo s
  | clickClear => clearCanvas s
  | clickDownload => s
  end.

(** The state after a sequence of events. *)
Fixpoint run (evs : list Event) (s : State) : State :=
  match evs with
  | [] => s
  | ev :: rest => run rest (handle ev s)
  end.

(** A gesture is active when [stopDrawing] passes its guard. *)
Definition gesture_active (s : State) : bool :=
  isDrawing s && match currentPath s with Some _ => true | None => false end.

(** A commit: [stopDrawing] reached with an active gesture. *)
Definition is_commit (ev : Event) (s : State) : bool :=
  match ev with
  | onMouseUp | onMouseLeave => gesture_active s
  | _ => false
  end.

(** Number of commits made over a sequence of events. *)
Fixpoint commit_count (evs : list Event) (s : State) : nat :=
  match evs with
  | [] => 0
  | ev :: rest =>
      (if is_commit ev s then 1 else 0) + commit_count rest (handle ev s)
  end.

End Handlers.

(** ** Kinds of events *)

(** The events of input capture and of the tool, colour and width
    selectors: everything but the undo, redo and clear buttons. *)
Definition is_capture_event (ev : Event) : bool :=
  match ev with
  | clickUndo | clickRedo | clickClear => false
  | _ => true
  end.

(** ** Sample inputs *)

Definition sample_canvas : HTMLCanvasElement :=
  {| canvas_width := 800; canvas_height := 600;
     getBoundingClientRect := {| left := 8; top := 100 |};
     has_context_2d := true |}.

Definition mouse_at (cx cy : float) : MouseEvent :=
  {| clientX := cx; clientY := cy |}.

(** Two gestures: a drag released over the canvas, then a drag that leaves
    it. *)
Definition two_gestures : list Event :=
  [ onMouseDown (Some sample_canvas) (mouse_at 18 110) 1700000000000
                1700000000000;
    onMouseMove (Some sample_canvas) (mouse_at 28 110);
    onMouseMove (Some sample_canvas) (mouse_at 28 120);
    onMouseUp;
    clickTool eraser;
    onMouseDown (Some sample_canvas) (mouse_at 13 105) 1700000000500
                1700000000500;
    onMouseMove (Some sample_canvas) (mouse_at 13 115);
    onMouseLeave ].

(** A state in the middle of a gesture, with one snapshot waiting on the
    redo stack. *)
Definition drawing_over_redo : State :=
  run defaultProps
    [ onMouseDown (Some sample_canvas) (mouse_at 18 110) 1 1;
      onMouseUp; clickUndo;
      onMouseDown (Some sample_canvas) (mouse_at 30 130) 2 2;
      onMouseMove (Some sample_canvas) (mouse_at 40 140) ]
    initialState.

(** Three committed strokes. *)
Definition three_strokes : list Event :=
  [ onMouseDown (Some sample_canvas) (mouse_at 18 110) 1 1;
    onMouseMove (Some sample_canvas) (mouse_at 28 110); onMouseUp;
    onMouseDown (Some sample_canvas) (mouse_at 30 130) 2 2;
    onMouseMove (Some sample_canvas) (mouse_at 40 140); onMouseUp;
    onMouseDown (Some sample_canvas) (mouse_at 50 150) 3 3;
    onMouseMove (Some sample_canvas) (mouse_at 60 160); onMouseUp ].

Definition three_paths : State := run defaultProps three_strokes initialState.

(** ** Geometry of a path *)

(** [path.points[0]] and [path.points[path.points.length - 1]] *)
Definition first_point (path : DrawingPath) : Point :=
  nth 0 (DrawingPath.points path) origin.

Definition last_point (path : DrawingPath) : Point :=
  nth (length (DrawingPath.points path) - 1) (DrawingPath.points path) origin.

(** The radius [drawPath] computes for a circle. *)
Definition circle_radius (path : DrawingPath) : float :=
  Math_sqrt
    (Math_pow2 (Point.x (last_point path) - Point.x (first_point path))
     + Math_pow2 (Point.y (last_point path) - Point.y (first_point path))).

(** The same path with another array of points. *)
Definition with_points (path : DrawingPath) (pts : list Point)
    : DrawingPath :=
  {| DrawingPath.id := DrawingPath.id path;
     DrawingPath.tool := DrawingPath.tool path;
     DrawingPath.points := pts;
     DrawingPath.color := DrawingPath.color path;
     DrawingPath.strokeWidth := DrawingPath.strokeWidth path;
     DrawingPath.timestamp := DrawingPath.timestamp path |}.

(** The path reduced to its first and its last point. *)
Definition endpoints_only (path : DrawingPath) : DrawingPath :=
  with_points path [first_point path; last_point path].

Definition lineTo_point (p : Point) : CanvasOp :=
  lineTo (Point.x p) (Point.y p).

(** The calls every drawn path starts with. *)
Definition drawPath_prologue (path : DrawingPath) : list CanvasOp :=
  [ save;
    set_strokeStyle (DrawingPath.color path);
    set_lineWidth (DrawingPath.strokeWidth path);
    set_lineCap "round";
    set_lineJoin "round";
    set_globalCompositeOperation
      (if Tool_eqb (DrawingPath.tool path) eraser
       then "destination-out" else "source-over");
    beginPath;
    moveTo (Point.x (first_point path)) (Point.y (first_point path)) ].

(** The rectangle and the circle of the geometry property. *)
Definition corner_rectangle (id color : string) (w : float) (ts : Z)
    : DrawingPath :=
  DrawingPath.mk id rectangle [Point.mk 10 10; Point.mk 50 40] color w ts.

Definition triangle_circle (id color : string) (w : float) (ts : Z)
    : DrawingPath :=
  DrawingPath.mk id circle [Point.mk 0 0; Point.mk 3 4] color w ts.

(** A rectangle dragged through a point off its diagonal, as a gesture
    through these three positions commits it. *)
Definition bent_rectangle : DrawingPath :=
  DrawingPath.mk "1700000000000" rectangle
    [Point.mk 10 10; Point.mk 40 15; Point.mk 50 40] "#000000" 2
    1700000000000.

Definition segment_count (sh : Shape) : nat :=
  match sh with
  | StrokedPath segments _ => length segments
  | _ => 0
  end.

(** A click without a drag: the gesture holds its start position only. *)
Definition clicked : State :=
  run defaultProps
    [ onMouseDown (Some sample_canvas) (mouse_at 18 110) 1700000000000
                  1700000000000 ]
    initialState.

(** ** The surface state of the specification *)

(** The surface state and its [end()] operation as the specification words
    them: if no gesture is in progress, nothing happens; otherwise the
    committed sequence is pushed on the undo stack, the redo stack is cleared,
    the in-progress path is appended to the committed sequence and the
    in-progress slot is cleared. *)
Module Spec.

Record SurfaceState : Type := {
  committed : list DrawingPath;
  inProgress : option DrawingPath;
  undoStack : list (list DrawingPath);
  redoStack : list (list DrawingPath)
}.

Definition end_ (st : SurfaceState) : SurfaceState :=
  match inProgress st with
  | None => st
  | Some p =>
      {| committed := committed st ++ [p];
         inProgress := None;
         undoStack := undoStack st ++ [committed st];
         redoStack := [] |}
  end.

End Spec.

(** The surface state a component state stands for: the in-progress path is
    the current path of a gesture that is being drawn. *)
Definition surface (s : State) : Spec.SurfaceState :=
  {| Spec.committed := paths s;
     Spec.inProgress := if isDrawing s then currentPath s else None;
     Spec.undoStack := undoStack s;
     Spec.redoStack := redoStack s |}.

(** ** Invariants of the reachable states *)

(** The drawing flag and the current path go together, and a gesture is only
    ever active on a writable board. *)
Definition consistent (props : WhiteboardProps) (s : State) : Prop :=
  match currentPath s with
  | Some _ => isDrawing s = true /\ isReadOnly props = false
  | None => isDrawing s = false
  end.

(** [p] was begun by the mouse-down [ev]: its first point is the position of
    that event, and its id and timestamp are the ones read then. *)
Definition started_by (ev : Event) (p : DrawingPath) : Prop :=
  match ev with
  | onMouseDown canvas e now_id now_ts =>
      nth_error (DrawingPath.points p) 0 = Some (getMousePos canvas e)
      /\ DrawingPath.id p = toString now_id
      /\ DrawingPath.timestamp p = now_ts
  | _ => False
  end.

Definition started_in (evs : list Event) (p : DrawingPath) : Prop :=
  exists ev, In ev evs /\ started_by ev p.

(** Every path a state holds: the committed ones, those of the snapshots on
    both stacks, and the current one. *)
Definition known_paths (s : State) : list DrawingPath :=
  paths s ++ concat (undoStack s) ++ concat (redoStack s)
  ++ match currentPath s with Some cp => [cp] | None => [] end.

Ltac in_known :=
  unfold known_paths in *; simpl in *;
  repeat rewrite ?in_app_iff, ?concat_app in *; simpl in *;
  repeat rewrite ?in_app_iff, ?app_nil_r in *; simpl in *;
  tauto.

(** ** The rendered controls *)

(** Whether the control an event comes from is rendered and enabled in the
    JSX of a state.  The canvas always is; the toolbar is rendered on a
    writable board only, with one button per tool, per colour of [colors] and
    per width of [strokeWidths]; the undo, redo and clear buttons are disabled
    on an empty undo stack, an empty redo stack and an empty board. *)
Definition enabled (props : WhiteboardProps) (ev : Event) (s : State)
    : bool :=
  match ev with
  | onMouseDown _ _ _ _ | onMouseMove _ _ | onMouseUp | onMouseLeave => true
  | clickTool _ => negb (isReadOnly props)
  | clickColor c =>
      negb (isReadOnly props) && existsb (String.eqb c) colors
  | clickWidth w =>
      negb (isReadOnly props)
      && existsb (PrimFloat.Leibniz.eqb w) strokeWidths
  | clickUndo => negb (isReadOnly props) && negb (length (undoStack s) =? 0)
  | clickRedo => negb (isReadOnly props) && negb (length (redoStack s) =? 0)
  | clickClear => negb (isReadOnly props) && negb (length (paths s) =? 0)
  | clickDownload => negb (isReadOnly props)
  end.

(** An event on a control that is absent or disabled reaches no handler. *)
Definition deliver (props : WhiteboardProps) (ev : Event) (s : State)
    : State :=
  if enabled props ev s then handle props ev s else s.

(** The state after a sequence of user actions on the rendered component. *)
Fixpoint ui_run (props : WhiteboardProps) (evs : list Event) (s : State)
    : State :=
  match evs with
  | [] => s
  | ev :: rest => ui_run props rest (deliver props ev s)
  end.

(** Mouse-moves and ends of gestures: the canvas events other than
    mouse-down. *)
Definition is_idle_canvas_event (ev : Event) : bool :=
  match ev with
  | onMouseMove _ _ | onMouseUp | onMouseLeave => true
  | _ => false
  end.

(** What can happen between a mouse-down and the end of its gesture:
    mouse-moves and clicks that select a tool, a colour or a width. *)
Definition is_mid_gesture_event (ev : Event) : bool :=
  match ev with
  | onMouseMove _ _ | clickTool _ | clickColor _ | clickWidth _
  | clickDownload => true
  | _ => false
  end.

(** The positions of the mouse-moves of a sequence of events, in order. *)
Fixpoint move_positions (evs : list Event) : list Point :=
  match evs with
  | [] => []
  | onMouseMove canvas e :: rest => getMousePos canvas e :: move_positions rest
  | _ :: rest => move_positions rest
  end.

(** A drag through five positions with the colour and the tool changed on
    the way. *)
Definition long_drag : list Event :=
  [ onMouseMove (Some sample_canvas) (mouse_at 28 110);
    clickColor "#FF0000";
    onMouseMove (Some sample_canvas) (mouse_at 38 120);
    clickTool circle;
    onMouseMove (Some sample_canvas) (mouse_at 48 130);
    onMouseMove (Some sample_canvas) (mouse_at 58 140) ].

(** A read-only board. *)
Definition readOnlyProps : WhiteboardProps :=
  {| width := 800; height := 600; isReadOnly := true; sessionId := None |}.

(** ** Renders

    A handler is a closure of one render: what it reads is the state of that
    render, and each of its [setX] calls queues an update that the next
    render applies.  [run] lets a render happen after every event, so that a
    handler sees the updates of the one before it.  For [draw], which sets a
    plain value computed from the path it reads, the closure matters:
    [draw_queued] is the update [draw(e)] queues when it runs in the closure
    of the render of [r], and [moves_in_one_render] queues those of several
    mouse-moves handled before the next render. *)

(** A mouse-move: [canvasRef.current] and the event. *)
Definition Move : Type := (option HTMLCanvasElement * MouseEvent)%type.

Definition move_position (m : Move) : Point := getMousePos (fst m) (snd m).

Definition draw_queued (props : WhiteboardProps)
    (canvas : option HTMLCanvasElement) (e : MouseEvent) (r : State)
    : State -> State :=
  match currentPath r with
  | None => fun q => q
  | Some cp =>
      if negb (isDrawing r) || isReadOnly props then fun q => q else
      let pos := getMousePos canvas e in
      let updatedPath :=
        {| DrawingPath.id := DrawingPath.id cp;
           DrawingPath.tool := DrawingPath.tool cp;
           DrawingPath.points := DrawingPath.points cp ++ [pos];
           DrawingPath.color := DrawingPath.color cp;
           DrawingPath.strokeWidth := DrawingPath.strokeWidth cp;
           DrawingPath.timestamp := DrawingPath.timestamp cp |} in
      setCurrentPath (Some updatedPath)
  end.

Fixpoint moves_in_one_render (props : WhiteboardProps) (moves : list Move)
    (r q : State) : State :=
  match moves with
  | [] => q
  | m :: rest =>
      moves_in_one_render props rest r
        (draw_queued props (fst m) (snd m) r q)
  end.

(** Two mouse-moves. *)
Definition two_moves : list Move :=
  [ (Some sample_canvas, mouse_at 28 110);
    (Some sample_canvas, mouse_at 28 120) ].

(** ** History as a timeline *)

(** The snapshots of the undo stack, the committed paths and the snapshots of
    the redo stack, read as one sequence of successive contents of the board;
    the committed paths sit at index [length (undoStack s)]. *)
Definition timeline (s : State) : list (list DrawingPath) :=
  undoStack s ++ [paths s] ++ redoStack s.

Definition is_history_navigation (ev : Event) : bool :=
  match ev with
  | clickUndo | clickRedo => true
  | _ => false
  end.

(** Successive entries hold different numbers of paths. *)
Fixpoint steps_differ (tl : list (list DrawingPath)) : bool :=
  match tl with
  | [] => true
  | a :: rest =>
      match rest with
      | [] => true
      | b :: _ => negb (length a =? length b)
      end && steps_differ rest
  end.

(** Everything of a state that undo and redo leave alone. *)
Definition history_frame (s s' : State) : Prop :=
  timeline s' = timeline s
  /\ isDrawing s' = isDrawing s
  /\ currentTool s' = currentTool s
  /\ strokeColor s' = strokeColor s
  /\ strokeWidth s' = strokeWidth s
  /\ currentPath s' = currentPath s.

(** Two commits and a clear, then some walking back and forth. *)
Definition walk_history : list Event :=
  [clickUndo; clickUndo; clickRedo; clickUndo; clickUndo; clickUndo;
   clickRedo].

(** The selected colour and width, and those of every path of the state,
    come from the palette and from the list of widths. *)
Definition palette_styles (s : State) : Prop :=
  In (strokeColor s) colors
  /\ In (strokeWidth s) strokeWidths
  /\ forall p, In p (known_paths s) ->
       In (DrawingPath.color p) colors
       /\ In (DrawingPath.strokeWidth p) strokeWidths.

(** ** Layers of a redraw *)

(** A context in drawing state [st] with nothing saved, no current path and
    nothing painted. *)
Definition context_with (st : DrawingState) : Context2D :=
  {| drawingState := st; savedStates := []; currentSubpaths := [];
     bitmap := [] |}.

(** The shapes [drawPath] paints for a path on a context whose drawing state
    is [st]. *)
Definition shapes_of (st : DrawingState) (path : DrawingPath) : list Shape :=
  bitmap (run_ops (context_with st) (drawPath path)).

(** The first calls of [redrawCanvas]: clear, then fill in white. *)
Definition background_ops (cv : HTMLCanvasElement) : list CanvasOp :=
  [ clearRect 0 0 (canvas_width cv) (canvas_height cv);
    set_fillStyle "#ffffff";
    fillRect 0 0 (canvas_width cv) (canvas_height cv) ].

Definition background (cv : HTMLCanvasElement) : list Shape :=
  paint (background_ops cv).

(** The drawing state they leave behind. *)
Definition white_fill : DrawingState :=
  {| fillStyle := "#ffffff"; strokeStyle := strokeStyle defaultDrawingState;
     lineWidth := lineWidth defaultDrawingState;
     lineCap := lineCap defaultDrawingState;
     lineJoin := lineJoin defaultDrawingState;
     globalCompositeOperation :=
       globalCompositeOperation defaultDrawingState |}.

Definition is_stack_op (op : CanvasOp) : bool :=
  match op with
  | save | restore => true
  | _ => false
  end.

(** A context seen from inside a [save]: [below] are the states saved before
    and [before] the shapes painted before. *)
Definition nested (before : list Shape) (below : list DrawingState)
    (c : Context2D) : Context2D :=
  {| drawingState := drawingState c;
     savedStates := savedStates c ++ below;
     currentSubpaths := currentSubpaths c;
     bitmap := before ++ bitmap c |}.

(** The calls of [drawPath] between its [save] and its [restore]. *)
Definition drawPath_body (path : DrawingPath) : list CanvasOp :=
  removelast (skipn 1 (drawPath path)).

(** An eraser stroke between two pen strokes, the second still being
    drawn. *)
Definition erased_board : State :=
  run defaultProps
    [ onMouseDown (Some sample_canvas) (mouse_at 18 110) 1 1;
      onMouseMove (Some sample_canvas) (mouse_at 58 150); onMouseUp;
      clickTool eraser; clickWidth 12;
      onMouseDown (Some sample_canvas) (mouse_at 18 150) 2 2;
      onMouseMove (Some sample_canvas) (mouse_at 58 110); onMouseUp;
      clickTool pen; clickColor "#0000FF";
      onMouseDown (Some sample_canvas) (mouse_at 8 100) 3 3;
      onMouseMove (Some sample_canvas) (mouse_at 8 200) ]
    initialState.

(** ** Export *)

(** The link [downloadCanvas] clicks. *)
Record DownloadLink : Type := { download : string; href : string }.

(** [downloadCanvas()]: [now] is the value of [Date.now()] and [dataURL]
    what [canvas.toDataURL()] returns; nothing is offered without a
    canvas. *)
Definition downloadCanvas (canvas : option HTMLCanvasElement) (now : Z)
    (dataURL : string) : option DownloadLink :=
  match canvas with
  | None => None
  | Some _ =>
      Some {| download := "whiteboard-" ++ toString now ++ ".png";
              href := dataURL |}
  end.

(** ** The note-taking component

    The related [NoteTaking] component keeps a note, its title, a list of
    selected tags and the text of the custom-tag input.  Its handlers trim
    and compare strings, so that here a JavaScript string is modelled as what
    it is, a sequence of UTF-16 code units. *)

Definition JSString : Type := list N.

(** A string literal of the source, all of whose characters are ASCII. *)
Definition js (s : string) : JSString :=
  map N_of_ascii (list_ascii_of_string s).

(** [a === b] on strings. *)
Fixpoint str_eqb (a b : JSString) : bool :=
  match a, b with
  | [], [] => true
  | u :: a', v :: b' => N.eqb u v && str_eqb a' b'
  | _, _ => false
  end.

(** A string in a condition: the empty string is the only falsy one. *)
Definition truthy (s : JSString) : bool :=
  match s with
  | [] => false
  | _ :: _ => true
  end.

(** The code units [String.prototype.trim] strips: the white space and line
    terminator code points of ECMAScript (TAB, LF, VT, FF, CR, SPACE, NBSP,
    the Unicode space separators, LS, PS and the byte order mark), all of
    which are single code units. *)
Definition is_white_space (u : N) : bool :=
  (N.leb 0x09 u && N.leb u 0x0D)
  || N.eqb u 0x20 || N.eqb u 0xA0 || N.eqb u 0x1680
  || (N.leb 0x2000 u && N.leb u 0x200A)
  || N.eqb u 0x2028 || N.eqb u 0x2029 || N.eqb u 0x202F
  || N.eqb u 0x205F || N.eqb u 0x3000 || N.eqb u 0xFEFF.

Fixpoint trimStart (s : JSString) : JSString :=
  match s with
  | [] => []
  | u :: rest => if is_white_space u then trimStart rest else s
  end.

Definition trimEnd (s : JSString) : JSString := rev (trimStart (rev s)).

(** [s.trim()] *)
Definition trim (s : JSString) : JSString := trimEnd (trimStart s).

(** [tags.includes(tag)] *)
Definition includes (tags : list JSString) (tag : JSString) : bool :=
  existsb (str_eqb tag) tags.

(** [interface NoteTakingProps] *)
Record NoteTakingProps : Type := {
  lessonId : option JSString;
  courseId : option JSString;
  lessonTitle : option JSString
}.

(** The [useState] cells of the component ([notes] never changes). *)
Record NoteState : Type := {
  currentNote : JSString;
  noteTitle : JSString;
  selectedTags : list JSString;
  newTag : JSString
}.

(** [lessonTitle ? `Notes: ${lessonTitle}` : ''] *)
Definition titleFor (props : NoteTakingProps) : JSString :=
  match lessonTitle props with
  | Some t => if truthy t then js "Notes: " ++ t else []
  | None => []
  end.

Definition noteInitialState (props : NoteTakingProps) : NoteState :=
  {| currentNote := []; noteTitle := titleFor props; selectedTags := [];
     newTag := [] |}.

Definition availableTags : list JSString :=
  [ js "Important"; js "Question"; js "Summary"; js "Formula";
    js "Example"; js "Review" ].

(** [saveNote()] *)
Definition saveNote (props : NoteTakingProps) (s : NoteState) : NoteState :=
  {| currentNote := []; noteTitle := titleFor props; selectedTags := [];
     newTag := newTag s |}.

(** [addTag(tag)] *)
Definition addTag (tag : JSString) (s : NoteState) : NoteState :=
  if truthy tag && negb (includes (selectedTags s) tag) then
    {| currentNote := currentNote s; noteTitle := noteTitle s;
       selectedTags := selectedTags s ++ [tag]; newTag := newTag s |}
  else s.

(** [removeTag(tagToRemove)] *)
Definition removeTag (tagToRemove : JSString) (s : NoteState) : NoteState :=
  {| currentNote := currentNote s; noteTitle := noteTitle s;
     selectedTags :=
       filter (fun tag => negb (str_eqb tag tagToRemove)) (selectedTags s);
     newTag := newTag s |}.

(** [addNewTag()] *)
Definition addNewTag (s : NoteState) : NoteState :=
  if truthy (trim (newTag s))
     && negb (includes (selectedTags s) (trim (newTag s))) then
    {| currentNote := currentNote s; noteTitle := noteTitle s;
       selectedTags := selectedTags s ++ [trim (newTag s)]; newTag := [] |}
  else s.

(** The [onClick] of the badge of an available tag. *)
Definition toggleTag (tag : JSString) (s : NoteState) : NoteState :=
  if includes (selectedTags s) tag then removeTag tag s else addTag tag s.

(** The events of the write tab: the three inputs, the badges of the
    available tags, a key press in the custom-tag input, the add button, the
    remove button of a selected tag and the save button. *)
Inductive NoteEvent : Type :=
| titleChanged (value : JSString)
| noteChanged (value : JSString)
| newTagChanged (value : JSString)
| tagBadgeClicked (tag : JSString)
| newTagKeyPressed (key : JSString)
| addTagClicked
| removeTagClicked (tag : JSString)
| saveClicked.

(** The listener bound to each event in the JSX. *)
Definition noteHandle (props : NoteTakingProps) (ev : NoteEvent)
    (s : NoteState) : NoteState :=
  match ev with
  | titleChanged v =>
      {| currentNote := currentNote s; noteTitle := v;
         selectedTags := selectedTags s; newTag := newTag s |}
  | noteChanged v =>
      {| currentNote := v; noteTitle := noteTitle s;
         selectedTags := selectedTags s; newTag := newTag s |}
  | newTagChanged v =>
      {| currentNote := currentNote s; noteTitle := noteTitle s;
         selectedTags := selectedTags s; newTag := v |}
  | tagBadgeClicked tag => toggleTag tag s
  | newTagKeyPressed key =>
      if str_eqb key (js "Enter") then addNewTag s else s
  | addTagClicked => addNewTag s
  | removeTagClicked tag => removeTag tag s
  | saveClicked => saveNote props s
  end.

(** Whether the control of an event is rendered and enabled: there is one
    badge per available tag, one remove button per selected tag, and the save
    button is disabled while the note is blank. *)
Definition noteEnabled (ev : NoteEvent) (s : NoteState) : bool :=
  match ev with
  | tagBadgeClicked tag => includes availableTags tag
  | removeTagClicked tag => includes (selectedTags s) tag
  | saveClicked => truthy (trim (currentNote s))
  | _ => true
  end.

(** The state after a sequence of user actions on the rendered component. *)
Fixpoint noteRun (props : NoteTakingProps) (evs : list NoteEvent)
    (s : NoteState) : NoteState :=
  match evs with
  | [] => s
  | ev :: rest =>
      noteRun props rest
        (if noteEnabled ev s then noteHandle props ev s else s)
  end.

(** A tag is kept as typed, apart from the white space around it. *)
Definition well_formed_tag (t : JSString) : Prop := t <> [] /\ trim t = t.

(** Selected tags are pairwise different and well formed. *)
Definition tags_invariant (s : NoteState) : Prop :=
  NoDup (selectedTags s) /\ Forall well_formed_tag (selectedTags s).

(** A session: two badges, a custom tag typed with blanks around it and
    entered twice, a badge clicked again. *)
Definition tagging_session : list NoteEvent :=
  [ tagBadgeClicked (js "Summary"); tagBadgeClicked (js "Review");
    newTagChanged (js "  exam prep ");
    newTagKeyPressed (js "Enter");
    newTagChanged (js "exam prep   "); addTagClicked;
    tagBadgeClicked (js "Summary");
    newTagChanged (js "   "); addTagClicked ].

(** * Properties *)

(** ** Tools *)

Lemma Tool_eqb_eq (a b : Tool) : Tool_eqb a b = true <-> a = b.
Proof. destruct a, b; simpl; split; congruence. Qed.

(** ** The calls made for the two sample shapes *)

Example drawPath_rect :
  drawPath (DrawingPath.mk "1" rectangle
              [Point.mk 10 10; Point.mk 50 40] "#000000" 2 1)
  = [save; set_strokeStyle "#000000"; set_lineWidth 2; set_lineCap "round";
     set_lineJoin "round"; set_globalCompositeOperation "source-over";
     beginPath; moveTo 10 10; lineTo 50 40; clearRect 0 0 0 0;
     strokeRect 10 10 40 30; stroke; restore].
Proof. reflexivity. Qed.

Example drawPath_circle :
  drawPath (DrawingPath.mk "1" circle
              [Point.mk 0 0; Point.mk 3 4] "#000000" 2 1)
  = [save; set_strokeStyle "#000000"; set_lineWidth 2; set_lineCap "round";
     set_lineJoin "round"; set_globalCompositeOperation "source-over";
     beginPath; moveTo 0 0; lineTo 3 4; clearRect 0 0 0 0;
     beginPath; arc 0 0 5 0 (2 * Math_PI); stroke; restore].
Proof. reflexivity. Qed.

(** The shapes they paint. *)
Example paint_rect :
  paint (drawPath (DrawingPath.mk "1" rectangle
              [Point.mk 10 10; Point.mk 50 40] "#000000" 2 1))
  = [StrokedRect 10 10 40 30
       (path_style (DrawingPath.mk "1" rectangle [] "#000000" 2 1));
     StrokedPath [MoveTo 10 10; LineTo 50 40]
       (path_style (DrawingPath.mk "1" rectangle [] "#000000" 2 1))].
Proof. reflexivity. Qed.

Example paint_circle :
  paint (drawPath (DrawingPath.mk "1" circle
              [Point.mk 0 0; Point.mk 3 4] "#000000" 2 1))
  = [StrokedPath [Arc 0 0 5 0 (2 * Math_PI)]
       (path_style (DrawingPath.mk "1" circle [] "#000000" 2 1))].
Proof. reflexivity. Qed.

(** ** Array facts used by the history proofs *)

Section ArrayFacts.

Context {A : Type}.

(** [[...l, v]] read back at its last index, and with its last entry
    sliced off. *)
Lemma nth_push (l : list A) (v d : A) :
  nth (length (l ++ [v]) - 1) (l ++ [v]) d = v.
Proof.
  rewrite length_app. simpl.
  replace (length l + 1 - 1) with (length l) by lia.
  apply nth_middle.
Qed.

Lemma slice_push (l : list A) (v : A) :
  firstn (length (l ++ [v]) - 1) (l ++ [v]) = l.
Proof.
  rewrite length_app. simpl.
  replace (length l + 1 - 1) with (length l + 0) by lia.
  rewrite firstn_app_2. simpl. apply app_nil_r.
Qed.

(** A non-empty array is its [slice(0, -1)] followed by its last entry. *)
Lemma slice_then_last (l : list A) (d : A) :
  l <> [] ->
  firstn (length l - 1) l ++ [nth (length l - 1) l d] = l.
Proof.
  intros Hne.
  destruct (exists_last Hne) as [l' [v ->]].
  now rewrite slice_push, nth_push.
Qed.

Lemma slice_length (l : list A) :
  length (firstn (length l - 1) l) = length l - 1.
Proof. rewrite length_firstn. lia. Qed.

(** A non-empty array is its first entry followed by its [slice(1)]. *)
Lemma first_then_slice (l : list A) (d : A) :
  l <> [] -> nth 0 l d :: skipn 1 l = l.
Proof. destruct l; [congruence | reflexivity]. Qed.

Lemma length_zero_eqb (l : list A) :
  (length l =? 0) = match l with [] => true | _ => false end.
Proof. destruct l; reflexivity. Qed.

(** Reads guarded by a length test fall inside the array. *)
Lemma read_last_defined (l : list A) (d : A) :
  (length l =? 0) = false ->
  nth_error l (length l - 1) = Some (nth (length l - 1) l d).
Proof.
  intros H. apply Nat.eqb_neq in H.
  apply nth_error_nth'. lia.
Qed.

Lemma read_first_defined (l : list A) (d : A) :
  (length l =? 0) = false -> nth_error l 0 = Some (nth 0 l d).
Proof.
  intros H. apply Nat.eqb_neq in H.
  apply nth_error_nth'. lia.
Qed.

End ArrayFacts.

(** ** Undo and redo *)

Lemma state_eta (s : State) :
  {| isDrawing := isDrawing s; currentTool := currentTool s;
     strokeColor := strokeColor s; strokeWidth := strokeWidth s;
     paths := paths s; undoStack := undoStack s; redoStack := redoStack s;
     currentPath := currentPath s |} = s.
Proof. destruct s; reflexivity. Qed.

(** What [undo] does on a non-empty undo stack, field by field. *)
Lemma undo_fields (s : State) :
  undoStack s <> [] ->
  undo s =
  {| isDrawing := isDrawing s; currentTool := currentTool s;
     strokeColor := strokeColor s; strokeWidth := strokeWidth s;
     paths := nth (length (undoStack s) - 1) (undoStack s) [];
     undoStack := firstn (length (undoStack s) - 1) (undoStack s);
     redoStack := paths s :: redoStack s;
     currentPath := currentPath s |}.
Proof.
  intros Hne. unfold undo. rewrite length_zero_eqb.
  destruct (undoStack s) eqn:E; [congruence |].
  unfold setUndoStack_with, setPaths, setPaths_with, setRedoStack_with.
  simpl. now rewrite E.
Qed.

(** What [redo] does on a non-empty redo stack, field by field. *)
Lemma redo_fields (s : State) :
  redoStack s <> [] ->
  redo s =
  {| isDrawing := isDrawing s; currentTool := currentTool s;
     strokeColor := strokeColor s; strokeWidth := strokeWidth s;
     paths := nth 0 (redoStack s) [];
     undoStack := undoStack s ++ [paths s];
     redoStack := skipn 1 (redoStack s);
     currentPath := currentPath s |}.
Proof.
  intros Hne. unfold redo. rewrite length_zero_eqb.
  destruct (redoStack s) eqn:E; [congruence |].
  unfold setUndoStack_with, setPaths, setPaths_with, setRedoStack_with.
  simpl. now rewrite E.
Qed.

Lemma undo_empty (s : State) : undoStack s = [] -> undo s = s.
Proof. intros H. unfold undo. now rewrite H. Qed.

Lemma redo_empty (s : State) : redoStack s = [] -> redo s = s.
Proof. intros H. unfold redo. now rewrite H. Qed.

Lemma redo_undo (s : State) : undoStack s <> [] -> redo (undo s) = s.
Proof.
  intros Hne. rewrite (undo_fields s Hne).
  rewrite redo_fields by (simpl; congruence).
  simpl. rewrite slice_then_last by exact Hne.
  apply state_eta.
Qed.

Lemma undo_redo (s : State) : redoStack s <> [] -> undo (redo s) = s.
Proof.
  intros Hne. rewrite (redo_fields s Hne).
  rewrite undo_fields by (simpl; now destruct (undoStack s)).
  cbn [undoStack paths redoStack isDrawing currentTool strokeColor
       strokeWidth currentPath].
  rewrite nth_push, slice_push, first_then_slice by exact Hne.
  apply state_eta.
Qed.

Lemma undo_stack_length (s : State) :
  length (undoStack (undo s)) = length (undoStack s) - 1.
Proof.
  destruct (undoStack s) eqn:E.
  - rewrite undo_empty by exact E. now rewrite E.
  - rewrite undo_fields by congruence. simpl undoStack at 1.
    rewrite E. apply slice_length.
Qed.

(** [n] undos followed by [n] redos, when the undo stack holds at least
    [n] snapshots. *)
Lemma redo_undo_iter (n : nat) :
  forall s : State,
    n <= length (undoStack s) ->
    Nat.iter n redo (Nat.iter n undo s) = s.
Proof.
  induction n as [| n IH]; intros s Hlen; [reflexivity |].
  rewrite (Nat.iter_succ_r n State undo), Nat.iter_succ.
  rewrite IH by (rewrite undo_stack_length; lia).
  apply redo_undo. destruct (undoStack s); simpl in *; [lia | congruence].
Qed.

(** ** Commits *)

(** What [stopDrawing] does when a gesture is active, field by field. *)
Lemma stopDrawing_fields (s : State) (cp : DrawingPath) :
  isDrawing s = true ->
  currentPath s = Some cp ->
  stopDrawing s =
  {| isDrawing := false; currentTool := currentTool s;
     strokeColor := strokeColor s; strokeWidth := strokeWidth s;
     paths := paths s ++ [cp];
     undoStack := undoStack s ++ [paths s];
     redoStack := [];
     currentPath := None |}.
Proof.
  intros Hd Hc. unfold stopDrawing. rewrite Hc, Hd. reflexivity.
Qed.

Lemma stopDrawing_idle (s : State) :
  gesture_active s = false -> stopDrawing s = s.
Proof.
  unfold gesture_active, stopDrawing.
  destruct (currentPath s), (isDrawing s); simpl; congruence.
Qed.

Lemma gesture_active_inv (s : State) :
  gesture_active s = true ->
  isDrawing s = true /\ exists cp, currentPath s = Some cp.
Proof.
  unfold gesture_active.
  destruct (isDrawing s), (currentPath s) as [cp |]; simpl; try discriminate.
  intros _. split; [reflexivity | now exists cp].
Qed.

(** The two listeners of [draw] and [startDrawing] leave the committed
    paths and both stacks alone. *)
Lemma startDrawing_history props canvas e n1 n2 (s : State) :
  let s' := startDrawing props canvas e n1 n2 s in
  paths s' = paths s /\ undoStack s' = undoStack s
  /\ redoStack s' = redoStack s.
Proof.
  unfold startDrawing. destruct (isReadOnly props); simpl; auto.
Qed.

Lemma draw_history props canvas e (s : State) :
  let s' := draw props canvas e s in
  paths s' = paths s /\ undoStack s' = undoStack s
  /\ redoStack s' = redoStack s.
Proof.
  unfold draw. destruct (currentPath s); simpl; auto.
  destruct (negb (isDrawing s) || isReadOnly props); simpl; auto.
Qed.

(** An event that is neither a commit nor a click on undo, redo or clear
    leaves the committed paths and both stacks alone. *)
Lemma handle_keeps_history props (ev : Event) (s : State) :
  is_capture_event ev = true ->
  is_commit ev s = false ->
  let s' := handle props ev s in
  paths s' = paths s /\ undoStack s' = undoStack s
  /\ redoStack s' = redoStack s.
Proof.
  intros Hcap Hcom.
  destruct ev; simpl in *; try discriminate; auto.
  - apply startDrawing_history.
  - apply draw_history.
  - rewrite stopDrawing_idle by exact Hcom. auto.
  - rewrite stopDrawing_idle by exact Hcom. auto.
Qed.

(** A commit pushes the committed paths on the undo stack, empties the redo
    stack and appends the in-progress path. *)
Lemma handle_commit props (ev : Event) (s : State) :
  is_commit ev s = true ->
  exists cp, currentPath s = Some cp /\
    let s' := handle props ev s in
    paths s' = paths s ++ [cp] /\ undoStack s' = undoStack s ++ [paths s]
    /\ redoStack s' = [] /\ currentPath s' = None /\ isDrawing s' = false.
Proof.
  intros Hcom.
  destruct ev; simpl in Hcom; try discriminate;
    destruct (gesture_active_inv s Hcom) as [Hd [cp Hc]];
    exists cp; (split; [exact Hc |]); simpl;
    rewrite (stopDrawing_fields s cp Hd Hc); simpl; auto.
Qed.

(** Over capture events the undo stack grows by one snapshot per commit, and
    the oldest of the new snapshots is the committed sequence the run started
    from. *)
Lemma run_capture_history props (evs : list Event) :
  forall s : State,
    Forall (fun ev => is_capture_event ev = true) evs ->
    exists snaps,
      undoStack (run props evs s) = undoStack s ++ snaps
      /\ length snaps = commit_count props evs s
      /\ nth 0 (snaps ++ [paths (run props evs s)]) [] = paths s.
Proof.
  induction evs as [| ev rest IH]; intros s Hall.
  - exists []. simpl. now rewrite app_nil_r.
  - inversion Hall as [| ? ? Hev Hrest]; subst.
    destruct (IH (handle props ev s) Hrest) as [snaps [Hu [Hl Hn]]].
    simpl run. simpl commit_count.
    destruct (is_commit ev s) eqn:Hcom.
    + destruct (handle_commit props ev s Hcom) as [cp [_ [Hp [Hus _]]]].
      exists (paths s :: snaps). rewrite Hu, Hus, <- app_assoc.
      simpl. auto.
    + destruct (handle_keeps_history props ev s Hev Hcom) as [Hp [Hus _]].
      exists snaps. rewrite Hu, Hus, Hn, Hp. auto.
Qed.

(** Undoing as many times as there are snapshots above [base] brings back
    the oldest of them. *)
Lemma undo_iter_pops (snaps : list (list DrawingPath)) :
  forall (s : State) (base : list (list DrawingPath)),
    undoStack s = base ++ snaps ->
    paths (Nat.iter (length snaps) undo s) = nth 0 (snaps ++ [paths s]) []
    /\ undoStack (Nat.iter (length snaps) undo s) = base.
Proof.
  induction snaps as [| x sn IH] using rev_ind; intros s base Hu.
  - simpl. rewrite app_nil_r in Hu. auto.
  - rewrite length_app. simpl length.
    replace (length sn + 1) with (S (length sn)) by lia.
    rewrite Nat.iter_succ_r.
    assert (Hne : undoStack s <> []).
    { rewrite Hu. destruct base, sn; simpl; congruence. }
    assert (Hu' : undoStack (undo s) = base ++ sn).
    { rewrite undo_fields by exact Hne. simpl. rewrite Hu, app_assoc.
      apply slice_push. }
    assert (Hp' : paths (undo s) = x).
    { rewrite undo_fields by exact Hne. simpl. rewrite Hu, app_assoc.
      apply nth_push. }
    destruct (IH (undo s) base Hu') as [Hp Hb].
    split; [| exact Hb].
    rewrite Hp, Hp'. rewrite <- app_assoc.
    destruct sn; reflexivity.
Qed.

(** C1. Undo/redo reversibility: after any run of capture events that makes
    [n] commits, from any state, [n] undos followed by [n] redos give back
    the very state reached after the [n]th commit (the same paths in the same
    order, and the same stacks), the [n] undos having brought the committed
    sequence back to the one the run started from; and on any state one undo
    followed by one redo, or one redo followed by one undo, restores the
    state exactly whenever the first of the two has something to pop. *)
Theorem undo_redo_reversible props (evs : list Event) (s : State) :
  Forall (fun ev => is_capture_event ev = true) evs ->
  let n := commit_count props evs s in
  let s' := run props evs s in
  Nat.iter n redo (Nat.iter n undo s') = s'
  /\ paths (Nat.iter n redo (Nat.iter n undo s')) = paths s'
  /\ paths (Nat.iter n undo s') = paths s
  /\ (forall t : State, undoStack t <> [] -> redo (undo t) = t)
  /\ (forall t : State, redoStack t <> [] -> undo (redo t) = t).
Proof.
  intros Hall n s'.
  destruct (run_capture_history props evs s Hall) as [snaps [Hu [Hl Hn]]].
  fold s' in Hu, Hn. fold n in Hl.
  assert (Hround : Nat.iter n redo (Nat.iter n undo s') = s').
  { apply redo_undo_iter. rewrite Hu, length_app. lia. }
  split; [exact Hround |].
  split; [now rewrite Hround |].
  split.
  - rewrite <- Hl.
    destruct (undo_iter_pops snaps s' (undoStack s) Hu) as [Hp _].
    now rewrite Hp.
  - split; [exact redo_undo | exact undo_redo].
Qed.

Example two_gestures_paths :
  map DrawingPath.points (paths (run defaultProps two_gestures initialState))
  = [ [Point.mk 10 10; Point.mk 20 10; Point.mk 20 20];
      [Point.mk 5 5; Point.mk 5 15] ].
Proof. reflexivity. Qed.

Lemma undo_redo_reversible_witness :
  commit_count defaultProps two_gestures initialState = 2
  /\ Nat.iter 2 redo
       (Nat.iter 2 undo (run defaultProps two_gestures initialState))
     = run defaultProps two_gestures initialState
  /\ paths (Nat.iter 2 undo (run defaultProps two_gestures initialState))
     = [].
Proof.
  assert (Hall : Forall (fun ev => is_capture_event ev = true) two_gestures).
  { repeat constructor. }
  pose proof (undo_redo_reversible defaultProps two_gestures initialState Hall)
    as [H1 [_ [H3 _]]].
  split; [reflexivity |]. split; [exact H1 | exact H3].
Defined.

(** ** Redo invalidation, clear, empty stacks *)

Lemma clearCanvas_fields (s : State) :
  clearCanvas s =
  {| isDrawing := isDrawing s; currentTool := currentTool s;
     strokeColor := strokeColor s; strokeWidth := strokeWidth s;
     paths := [];
     undoStack := undoStack s ++ [paths s];
     redoStack := [];
     currentPath := currentPath s |}.
Proof. reflexivity. Qed.

(** C3. Redo invalidation: a commit ([stopDrawing] with an active gesture,
    whether reached by mouse-up or by mouse-leave) and [clearCanvas] both
    leave the redo stack empty whatever it held; and an event that is neither
    a commit nor a click on undo, redo or clear changes neither stack. *)
Theorem redo_invalidation props (ev : Event) (s : State) :
  (gesture_active s = true -> redoStack (stopDrawing s) = [])
  /\ (is_commit ev s = true -> redoStack (handle props ev s) = [])
  /\ redoStack (clearCanvas s) = []
  /\ redoStack (handle props clickClear s) = []
  /\ (is_commit ev s = false ->
      ev <> clickUndo -> ev <> clickRedo -> ev <> clickClear ->
      undoStack (handle props ev s) = undoStack s
      /\ redoStack (handle props ev s) = redoStack s).
Proof.
  split; [| split; [| split; [| split]]].
  - intros Ha. destruct (gesture_active_inv s Ha) as [Hd [cp Hc]].
    now rewrite (stopDrawing_fields s cp Hd Hc).
  - intros Hcom.
    destruct (handle_commit props ev s Hcom) as [cp [_ [_ [_ [Hr _]]]]].
    exact Hr.
  - reflexivity.
  - reflexivity.
  - intros Hcom Hu Hr Hc.
    assert (Hcap : is_capture_event ev = true)
      by (destruct ev; simpl; congruence).
    destruct (handle_keeps_history props ev s Hcap Hcom) as [_ [H1 H2]].
    now split.
Qed.

Lemma redo_invalidation_witness :
  length (redoStack drawing_over_redo) = 1
  /\ redoStack (stopDrawing drawing_over_redo) = []
  /\ redoStack (handle defaultProps onMouseLeave drawing_over_redo) = []
  /\ undoStack (handle defaultProps (clickTool circle) drawing_over_redo)
     = undoStack drawing_over_redo.
Proof.
  pose proof (redo_invalidation defaultProps onMouseLeave drawing_over_redo)
    as [H1 [H2 _]].
  pose proof (redo_invalidation defaultProps (clickTool circle)
                drawing_over_redo) as [_ [_ [_ [_ H5]]]].
  split; [reflexivity |].
  split; [apply H1; reflexivity |].
  split; [apply H2; reflexivity |].
  apply H5; [reflexivity | discriminate | discriminate | discriminate].
Defined.

(** C4. Clear semantics: with three committed paths, [clearCanvas] leaves no
    committed path, pushes exactly one entry on the undo stack, the three-path
    sequence, and empties the redo stack; one [undo] right after brings the
    three paths back. *)
Theorem clear_semantics (s : State) :
  length (paths s) = 3 ->
  let c := clearCanvas s in
  paths c = []
  /\ undoStack c = undoStack s ++ [paths s]
  /\ length (undoStack c) = S (length (undoStack s))
  /\ redoStack c = []
  /\ paths (undo c) = paths s
  /\ length (paths (undo c)) = 3.
Proof.
  intros H3 c. subst c. rewrite clearCanvas_fields. simpl.
  assert (Hp : paths (undo
     {| isDrawing := isDrawing s; currentTool := currentTool s;
        strokeColor := strokeColor s; strokeWidth := strokeWidth s;
        paths := []; undoStack := undoStack s ++ [paths s];
        redoStack := []; currentPath := currentPath s |}) = paths s).
  { rewrite undo_fields by (simpl; now destruct (undoStack s)).
    simpl. apply nth_push. }
  repeat split.
  - rewrite length_app. simpl. lia.
  - exact Hp.
  - now rewrite Hp.
Qed.

Lemma clear_semantics_witness :
  length (paths three_paths) = 3
  /\ paths (clearCanvas three_paths) = []
  /\ length (undoStack (clearCanvas three_paths)) = 4
  /\ redoStack (clearCanvas three_paths) = []
  /\ paths (undo (clearCanvas three_paths)) = paths three_paths.
Proof.
  assert (H3 : length (paths three_paths) = 3) by reflexivity.
  pose proof (clear_semantics three_paths H3) as [H1 [_ [Hl [Hr [Hp _]]]]].
  split; [exact H3 |]. split; [exact H1 |].
  split; [exact Hl |]. split; [exact Hr | exact Hp].
Defined.

(** C5. No-op on empty stacks: [undo] on an empty undo stack and [redo] on an
    empty redo stack return the state they were given, all fields unchanged.
    Both handlers are total; the one array element each of them reads when
    its stack is not empty lies inside the array, so that no undefined value
    is ever stored as the committed sequence. *)
Theorem history_noop_on_empty (s : State) :
  (undoStack s = [] ->
     undo s = s
     /\ paths (undo s) = paths s
     /\ undoStack (undo s) = undoStack s
     /\ redoStack (undo s) = redoStack s)
  /\ (redoStack s = [] ->
     redo s = s
     /\ paths (redo s) = paths s
     /\ undoStack (redo s) = undoStack s
     /\ redoStack (redo s) = redoStack s)
  /\ (undoStack s <> [] ->
     nth_error (undoStack s) (length (undoStack s) - 1)
     = Some (paths (undo s)))
  /\ (redoStack s <> [] ->
     nth_error (redoStack s) 0 = Some (paths (redo s))).
Proof.
  split; [| split; [| split]].
  - intros H. now rewrite (undo_empty s H).
  - intros H. now rewrite (redo_empty s H).
  - intros H. rewrite (undo_fields s H). simpl.
    apply read_last_defined. rewrite length_zero_eqb.
    now destruct (undoStack s).
  - intros H. rewrite (redo_fields s H). simpl.
    apply read_first_defined. rewrite length_zero_eqb.
    now destruct (redoStack s).
Qed.

Lemma history_noop_on_empty_witness :
  undo initialState = initialState
  /\ redo initialState = initialState
  /\ redo three_paths = three_paths
  /\ nth_error (undoStack three_paths) 2 = Some (paths (undo three_paths)).
Proof.
  pose proof (history_noop_on_empty initialState) as [Hu [Hr _]].
  pose proof (history_noop_on_empty three_paths) as [_ [Hr3 [Hd _]]].
  split; [apply Hu; reflexivity |].
  split; [apply Hr; reflexivity |].
  split; [apply Hr3; reflexivity |].
  apply Hd. discriminate.
Defined.

(** ** Rendering *)

Lemma drawPath_short (path : DrawingPath) :
  length (DrawingPath.points path) < 2 -> drawPath path = [].
Proof.
  intros H. unfold drawPath.
  destruct (Nat.ltb_spec (length (DrawingPath.points path)) 2);
    [reflexivity | lia].
Qed.

Lemma drawPath_circle_ops (path : DrawingPath) :
  DrawingPath.tool path = circle ->
  2 <= length (DrawingPath.points path) ->
  drawPath path =
    drawPath_prologue path
    ++ map lineTo_point (skipn 1 (DrawingPath.points path))
    ++ [ clearRect 0 0 0 0; beginPath;
         arc (Point.x (first_point path)) (Point.y (first_point path))
             (circle_radius path) 0 (2 * Math_PI) ]
    ++ [ stroke; restore ].
Proof.
  intros Ht Hl. unfold drawPath, drawPath_prologue. rewrite Ht.
  simpl Tool_eqb.
  destruct (Nat.ltb_spec (length (DrawingPath.points path)) 2); [lia |].
  destruct (Nat.leb_spec 2 (length (DrawingPath.points path))); [| lia].
  reflexivity.
Qed.

Lemma drawPath_rectangle_ops (path : DrawingPath) :
  DrawingPath.tool path = rectangle ->
  2 <= length (DrawingPath.points path) ->
  drawPath path =
    drawPath_prologue path
    ++ map lineTo_point (skipn 1 (DrawingPath.points path))
    ++ [ clearRect 0 0 0 0;
         strokeRect (Point.x (first_point path)) (Point.y (first_point path))
           (Point.x (last_point path) - Point.x (first_point path))
           (Point.y (last_point path) - Point.y (first_point path)) ]
    ++ [ stroke; restore ].
Proof.
  intros Ht Hl. unfold drawPath, drawPath_prologue. rewrite Ht.
  simpl Tool_eqb.
  destruct (Nat.ltb_spec (length (DrawingPath.points path)) 2); [lia |].
  destruct (Nat.leb_spec 2 (length (DrawingPath.points path))); [| lia].
  reflexivity.
Qed.

Lemma run_ops_app (c : Context2D) (ops1 ops2 : list CanvasOp) :
  run_ops c (ops1 ++ ops2) = run_ops (run_ops c ops1) ops2.
Proof. apply fold_left_app. Qed.

Lemma with_path_id (c : Context2D) :
  with_path (fun _ => currentSubpaths c) c = c.
Proof. destruct c; reflexivity. Qed.

(** A run of [lineTo] calls changes nothing but the current path. *)
Lemma run_lineTos (pts : list Point) :
  forall c : Context2D,
    exists sp, run_ops c (map lineTo_point pts) = with_path (fun _ => sp) c.
Proof.
  induction pts as [| p pts IH]; intros c.
  - exists (currentSubpaths c). simpl. symmetry. apply with_path_id.
  - change (run_ops c (map lineTo_point (p :: pts)))
      with (run_ops (exec c (lineTo_point p)) (map lineTo_point pts)).
    destruct (IH (exec c (lineTo_point p))) as [sp Hsp].
    exists sp. rewrite Hsp. unfold lineTo_point, exec.
    destruct (negb (all_finite [Point.x p; Point.y p])); reflexivity.
Qed.

(** [clearRect(0, 0, 0, 0)] clears nothing and leaves the current path as it
    is: the path built so far is still there for the next [stroke]. *)
Lemma exec_clearRect_zero (c : Context2D) : exec c (clearRect 0 0 0 0) = c.
Proof. reflexivity. Qed.

(** [beginPath] forgets whatever path was being built. *)
Lemma exec_beginPath_forgets (c : Context2D) (sp : list Segment) :
  exec (with_path (fun _ => sp) c) beginPath = with_path (fun _ => []) c.
Proof. reflexivity. Qed.

(** The circle branch: the polyline through the collected points is dropped
    by the second [beginPath], so that a circle path paints the same shapes
    as the path of its first and last point alone. *)
Lemma circle_ignores_intermediate_points (path : DrawingPath) :
  DrawingPath.tool path = circle ->
  2 <= length (DrawingPath.points path) ->
  paint (drawPath path) = paint (drawPath (endpoints_only path)).
Proof.
  intros Ht Hl.
  rewrite (drawPath_circle_ops path Ht Hl).
  rewrite (drawPath_circle_ops (endpoints_only path) Ht)
    by (simpl; lia).
  unfold paint. rewrite !run_ops_app.
  replace (drawPath_prologue (endpoints_only path))
    with (drawPath_prologue path) by reflexivity.
  replace (first_point (endpoints_only path)) with (first_point path)
    by reflexivity.
  replace (circle_radius (endpoints_only path)) with (circle_radius path)
    by reflexivity.
  set (c := run_ops freshContext (drawPath_prologue path)).
  destruct (run_lineTos (skipn 1 (DrawingPath.points path)) c) as [sp ->].
  destruct (run_lineTos
              (skipn 1 (DrawingPath.points (endpoints_only path))) c)
    as [sp' ->].
  reflexivity.
Qed.

(** The calls that carry the geometry: for a rectangle the first point and
    the coordinate differences to the last point, for a circle the first
    point and the distance [sqrt(dx * dx + dy * dy)] to the last point. *)
Lemma drawPath_geometry_calls (path : DrawingPath) :
  2 <= length (DrawingPath.points path) ->
  (DrawingPath.tool path = rectangle ->
   In (strokeRect
         (Point.x (first_point path)) (Point.y (first_point path))
         (Point.x (last_point path) - Point.x (first_point path))
         (Point.y (last_point path) - Point.y (first_point path)))
      (drawPath path))
  /\ (DrawingPath.tool path = circle ->
      In (arc (Point.x (first_point path)) (Point.y (first_point path))
            (Math_sqrt
              (Math_pow2
                 (Point.x (last_point path) - Point.x (first_point path))
               + Math_pow2
                 (Point.y (last_point path) - Point.y (first_point path))))
            0 (2 * Math_PI))
         (drawPath path)).
Proof.
  intros Hl. split; intros Ht.
  - rewrite (drawPath_rectangle_ops path Ht Hl).
    apply in_or_app; right. apply in_or_app; right.
    apply in_or_app; left. simpl. tauto.
  - rewrite (drawPath_circle_ops path Ht Hl).
    apply in_or_app; right. apply in_or_app; right.
    apply in_or_app; left. simpl. tauto.
Qed.

Example corner_rectangle_committed :
  paths (run defaultProps
           [ clickTool rectangle;
             onMouseDown (Some sample_canvas) (mouse_at 18 110)
                         1700000000000 1700000000000;
             onMouseMove (Some sample_canvas) (mouse_at 58 140);
             onMouseUp ]
           initialState)
  = [corner_rectangle "1700000000000" "#000000" 2 1700000000000].
Proof. reflexivity. Qed.

(** C7. Rectangle/circle geometry.  The circle path with points
    [(0,0), (3,4)] is painted as exactly one shape, the full circle of centre
    (0,0) and radius 5, the distance [sqrt(3 * 3 + 4 * 4)].  The rectangle
    path with points [(10,10), (50,40)] is not painted as a rectangle alone:
    the renderer strokes the rectangle of corner (10,10), width 40 and
    height 30, and then, the polyline through the points still being the
    current path, the diagonal from (10,10) to (50,40) across it.  This holds
    for every id, colour and timestamp and for each of the five widths. *)
Theorem rectangle_geometry_with_diagonal (id color : string) (ts : Z) :
  Forall (fun w =>
    let r := corner_rectangle id color w ts in
    let c := triangle_circle id color w ts in
    paint (drawPath r)
    = [ StrokedRect 10 10 40 30 (path_style r);
        StrokedPath [MoveTo 10 10; LineTo 50 40] (path_style r) ]
    /\ paint (drawPath r) <> [StrokedRect 10 10 40 30 (path_style r)]
    /\ drawPath r
       = [ save; set_strokeStyle color; set_lineWidth w; set_lineCap "round";
           set_lineJoin "round"; set_globalCompositeOperation "source-over";
           beginPath; moveTo 10 10; lineTo 50 40; clearRect 0 0 0 0;
           strokeRect 10 10 40 30; stroke; restore ]
    /\ circle_radius c = 5%float
    /\ paint (drawPath c)
       = [StrokedPath [Arc 0 0 5 0 (2 * Math_PI)] (path_style c)])
    strokeWidths.
Proof.
  unfold strokeWidths.
  repeat (constructor;
          [ split; [reflexivity |];
            split; [intros H; apply (f_equal (@length Shape)) in H;
                    discriminate H |];
            split; [reflexivity |];
            split; reflexivity |]).
  constructor.
Qed.

Example bent_rectangle_committed :
  paths (run defaultProps
           [ clickTool rectangle;
             onMouseDown (Some sample_canvas) (mouse_at 18 110)
                         1700000000000 1700000000000;
             onMouseMove (Some sample_canvas) (mouse_at 48 115);
             onMouseMove (Some sample_canvas) (mouse_at 58 140);
             onMouseUp ]
           initialState)
  = [bent_rectangle].
Proof. reflexivity. Qed.

(** C2. For a rectangle path the renderer does not ignore the intermediate
    points: [clearRect(0, 0, 0, 0)] does not reset the current path, so that
    the final [stroke] paints the polyline through every collected point on
    top of the rectangle.  The path with points [(10,10), (40,15), (50,40)]
    and the path with its first and last point alone paint different
    shapes. *)
Theorem rectangle_strokes_intermediate_points :
  paint (drawPath bent_rectangle)
  = [ StrokedRect 10 10 40 30 (path_style bent_rectangle);
      StrokedPath [MoveTo 10 10; LineTo 40 15; LineTo 50 40]
        (path_style bent_rectangle) ]
  /\ paint (drawPath (endpoints_only bent_rectangle))
     = [ StrokedRect 10 10 40 30 (path_style bent_rectangle);
         StrokedPath [MoveTo 10 10; LineTo 50 40]
           (path_style bent_rectangle) ]
  /\ paint (drawPath bent_rectangle)
     <> paint (drawPath (endpoints_only bent_rectangle)).
Proof.
  split; [reflexivity |]. split; [reflexivity |].
  intros H. apply (f_equal (map segment_count)) in H.
  vm_compute in H. discriminate H.
Qed.

(** C8. A gesture ended with at most one collected point is committed like
    any other: the path is appended to the committed paths, which grow by
    one, the previous sequence is pushed on the undo stack and the redo stack
    is emptied, so that an [undo] takes the path off again and a [redo] puts
    it back; and the renderer makes no call on the context for a path with
    fewer than two points, neither on its own nor within a redraw of the
    committed paths. *)
Theorem degenerate_gesture_committed (s : State) (cp : DrawingPath)
    (canvas : option HTMLCanvasElement) :
  isDrawing s = true ->
  currentPath s = Some cp ->
  length (DrawingPath.points cp) <= 1 ->
  let s' := stopDrawing s in
  paths s' = paths s ++ [cp]
  /\ length (paths s') = S (length (paths s))
  /\ undoStack s' = undoStack s ++ [paths s]
  /\ redoStack s' = []
  /\ paths (undo s') = paths s
  /\ redoStack (undo s') = [paths s ++ [cp]]
  /\ paths (redo (undo s')) = paths s ++ [cp]
  /\ drawPath cp = []
  /\ paint (drawPath cp) = []
  /\ (forall p : DrawingPath,
        length (DrawingPath.points p) < 2 ->
        drawPath p = [] /\ paint (drawPath p) = [])
  /\ redrawCanvas canvas s' = redrawCanvas canvas (setPaths (paths s) s').
Proof.
  intros Hd Hc Hl s'.
  assert (Hs' : s' = stopDrawing s) by reflexivity.
  rewrite (stopDrawing_fields s cp Hd Hc) in Hs'.
  assert (Hne : undoStack s' <> []).
  { rewrite Hs'. simpl. now destruct (undoStack s). }
  assert (Hdraw : drawPath cp = []) by (apply drawPath_short; lia).
  assert (Hundo : paths (undo s') = paths s
                  /\ redoStack (undo s') = [paths s ++ [cp]]).
  { rewrite (undo_fields s' Hne). rewrite Hs'. simpl.
    split; [apply nth_push | reflexivity]. }
  split; [now rewrite Hs' |].
  split; [rewrite Hs'; simpl; rewrite length_app; simpl; lia |].
  split; [now rewrite Hs' |].
  split; [now rewrite Hs' |].
  split; [apply Hundo |].
  split; [apply Hundo |].
  split; [rewrite (redo_undo s' Hne); now rewrite Hs' |].
  split; [exact Hdraw |].
  split; [now rewrite Hdraw |].
  split; [intros p Hp; rewrite (drawPath_short p Hp); now split |].
  rewrite Hs'. unfold redrawCanvas. simpl.
  destruct canvas as [cv |]; [| reflexivity].
  destruct (negb (has_context_2d cv)); [reflexivity |].
  rewrite flat_map_app. simpl. rewrite Hdraw. now rewrite !app_nil_r.
Qed.

Lemma degenerate_gesture_committed_witness :
  map DrawingPath.points (paths (stopDrawing clicked)) = [[Point.mk 10 10]]
  /\ length (undoStack (stopDrawing clicked)) = 1
  /\ paint (flat_map drawPath (paths (stopDrawing clicked))) = [].
Proof.
  pose (cp := DrawingPath.mk "1700000000000" pen [Point.mk 10 10]
                "#000000" 2 1700000000000).
  assert (Hd : isDrawing clicked = true) by reflexivity.
  assert (Hc : currentPath clicked = Some cp) by reflexivity.
  assert (Hl : length (DrawingPath.points cp) <= 1) by (simpl; lia).
  pose proof (degenerate_gesture_committed clicked cp (Some sample_canvas)
                Hd Hc Hl) as [Hp [_ [Hu _]]].
  split; [now rewrite Hp |].
  split; [now rewrite Hu |].
  rewrite Hp. reflexivity.
Defined.

(** ** Pointer-leave *)

Lemma stopDrawing_refines_end (s : State) :
  surface (stopDrawing s) = Spec.end_ (surface s).
Proof.
  destruct (isDrawing s) eqn:Hd.
  - destruct (currentPath s) as [cp |] eqn:Hc.
    + rewrite (stopDrawing_fields s cp Hd Hc).
      unfold surface, Spec.end_. simpl. rewrite Hd, Hc. reflexivity.
    + rewrite stopDrawing_idle
        by (unfold gesture_active; now rewrite Hd, Hc).
      unfold surface, Spec.end_. simpl. now rewrite Hd, Hc.
  - rewrite stopDrawing_idle by (unfold gesture_active; now rewrite Hd).
    unfold surface, Spec.end_. simpl. now rewrite Hd.
Qed.

(** The state reached by a mouse-down followed by two mouse-moves on a
    writable board. *)
Lemma three_point_gesture props c0 e0 n1 n2 c1 e1 c2 e2 (s : State) :
  isReadOnly props = false ->
  run props [onMouseDown c0 e0 n1 n2; onMouseMove c1 e1; onMouseMove c2 e2] s
  = {| isDrawing := true; currentTool := currentTool s;
       strokeColor := strokeColor s; strokeWidth := strokeWidth s;
       paths := paths s; undoStack := undoStack s;
       redoStack := redoStack s;
       currentPath := Some
         {| DrawingPath.id := toString n1;
            DrawingPath.tool := currentTool s;
            DrawingPath.points :=
              [getMousePos c0 e0; getMousePos c1 e1; getMousePos c2 e2];
            DrawingPath.color := strokeColor s;
            DrawingPath.strokeWidth := strokeWidth s;
            DrawingPath.timestamp := n2 |} |}.
Proof.
  intros Hro. simpl. unfold startDrawing, draw. rewrite Hro. reflexivity.
Qed.

(** C6. Pointer-leave commits.  The mouse-leave listener is [stopDrawing],
    the listener of mouse-up, so that the two events lead to the same state
    from every state, and that state is the one the specification's [end()]
    gives: an active gesture is committed, not discarded.  In particular a
    gesture begun and extended to three points, then left, leaves the
    committed paths with exactly one more path, holding those three points,
    and the stacks as a mouse-up would leave them. *)
Theorem pointer_leave_commits props (s : State)
    c0 e0 n1 n2 c1 e1 c2 e2 :
  handle props onMouseLeave s = handle props onMouseUp s
  /\ surface (handle props onMouseLeave s) = Spec.end_ (surface s)
  /\ (gesture_active s = true ->
      exists cp, currentPath s = Some cp
        /\ paths (handle props onMouseLeave s) = paths s ++ [cp]
        /\ currentPath (handle props onMouseLeave s) = None)
  /\ (isReadOnly props = false ->
      let gesture :=
        [onMouseDown c0 e0 n1 n2; onMouseMove c1 e1; onMouseMove c2 e2] in
      let left_ := run props (gesture ++ [onMouseLeave]) s in
      exists cp,
        paths left_ = paths s ++ [cp]
        /\ DrawingPath.points cp
           = [getMousePos c0 e0; getMousePos c1 e1; getMousePos c2 e2]
        /\ currentPath left_ = None
        /\ isDrawing left_ = false
        /\ undoStack left_ = undoStack s ++ [paths s]
        /\ redoStack left_ = []
        /\ left_ = run props (gesture ++ [onMouseUp]) s).
Proof.
  split; [reflexivity |].
  split; [apply stopDrawing_refines_end |].
  split.
  - intros Ha.
    destruct (handle_commit props onMouseLeave s Ha)
      as [cp [Hc [Hp [_ [_ [Hn _]]]]]].
    exists cp. auto.
  - intros Hro gesture left_.
    pose proof (three_point_gesture props c0 e0 n1 n2 c1 e1 c2 e2 s Hro)
      as Hg.
    fold gesture in Hg.
    assert (Hup : left_ = run props (gesture ++ [onMouseUp]) s)
      by reflexivity.
    assert (Hl : left_ = stopDrawing (run props gesture s)) by reflexivity.
    rewrite Hg in Hl. clear Hg.
    exists {| DrawingPath.id := toString n1;
              DrawingPath.tool := currentTool s;
              DrawingPath.points :=
                [getMousePos c0 e0; getMousePos c1 e1; getMousePos c2 e2];
              DrawingPath.color := strokeColor s;
              DrawingPath.strokeWidth := strokeWidth s;
              DrawingPath.timestamp := n2 |}.
    split; [rewrite Hl; reflexivity |].
    split; [reflexivity |].
    repeat (split; [rewrite Hl; reflexivity |]).
    exact Hup.
Qed.

Lemma pointer_leave_commits_witness :
  map DrawingPath.points
    (paths (run defaultProps
       [ onMouseDown (Some sample_canvas) (mouse_at 18 110) 7 7;
         onMouseMove (Some sample_canvas) (mouse_at 28 110);
         onMouseMove (Some sample_canvas) (mouse_at 28 120);
         onMouseLeave ] initialState))
  = [[Point.mk 10 10; Point.mk 20 10; Point.mk 20 20]]
  /\ paths (handle defaultProps onMouseLeave drawing_over_redo)
     = paths drawing_over_redo
         ++ [DrawingPath.mk "2" pen [Point.mk 22 30; Point.mk 32 40]
               "#000000" 2 2].
Proof.
  pose proof (pointer_leave_commits defaultProps initialState
                (Some sample_canvas) (mouse_at 18 110) 7 7
                (Some sample_canvas) (mouse_at 28 110)
                (Some sample_canvas) (mouse_at 28 120))
    as [_ [_ [_ H]]].
  destruct (H eq_refl) as [cp [Hp [Hpts _]]].
  pose proof (pointer_leave_commits defaultProps drawing_over_redo
                None (mouse_at 0 0) 0 0 None (mouse_at 0 0)
                None (mouse_at 0 0))
    as [_ [_ [Ha _]]].
  destruct (Ha eq_refl) as [cp' [Hc' [Hp' _]]].
  split.
  - simpl app in Hp. rewrite Hp. simpl. now rewrite Hpts.
  - rewrite Hp'. f_equal. f_equal.
    assert (Hs : Some cp' = Some (DrawingPath.mk "2" pen
                   [Point.mk 22 30; Point.mk 32 40] "#000000" 2 2))
      by (rewrite <- Hc'; reflexivity).
    now inversion Hs.
Defined.

(** ** Reachable states *)

Lemma run_app props (evs1 evs2 : list Event) (s : State) :
  run props (evs1 ++ evs2) s = run props evs2 (run props evs1 s).
Proof.
  revert s. induction evs1 as [| ev evs1 IH]; intros s; simpl; auto.
Qed.

Lemma handle_consistent props (ev : Event) (s : State) :
  consistent props s -> consistent props (handle props ev s).
Proof.
  unfold consistent. intros H.
  destruct ev; simpl; try exact H.
  - unfold startDrawing.
    destruct (isReadOnly props) eqn:Hro; [exact H |]. simpl. auto.
  - unfold draw. destruct (currentPath s) as [cp |] eqn:Hc.
    + destruct H as [Hd Hro]. rewrite Hd, Hro. simpl. auto.
    + now rewrite Hc.
  - unfold stopDrawing. destruct (currentPath s) as [cp |] eqn:Hc.
    + destruct H as [Hd Hro]. rewrite Hd. reflexivity.
    + now rewrite Hc.
  - unfold stopDrawing. destruct (currentPath s) as [cp |] eqn:Hc.
    + destruct H as [Hd Hro]. rewrite Hd. reflexivity.
    + now rewrite Hc.
  - unfold undo. destruct (length (undoStack s) =? 0); exact H.
  - unfold redo. destruct (length (redoStack s) =? 0); exact H.
Qed.

Lemma run_consistent props (evs : list Event) :
  forall s : State, consistent props s -> consistent props (run props evs s).
Proof.
  induction evs as [| ev evs IH]; intros s H; simpl; [exact H |].
  apply IH. now apply handle_consistent.
Qed.

Lemma initial_consistent props : consistent props initialState.
Proof. reflexivity. Qed.

(** C9. A mouse-down while a gesture is active.  In any state reached from
    the initial one in which a gesture is active, [startDrawing] replaces the
    in-progress path by a fresh one holding the new position alone; the
    committed paths and both stacks are left as they were (no snapshot is
    pushed), and the new state, hence every later one, is the one that would
    have been reached had the former in-progress path not been there: its
    points are dropped without being committed. *)
Theorem begin_discards_active_gesture props (evs : list Event)
    (old : DrawingPath) canvas e n1 n2 :
  let s := run props evs initialState in
  isDrawing s = true ->
  currentPath s = Some old ->
  let s' := startDrawing props canvas e n1 n2 s in
  currentPath s' =
    Some {| DrawingPath.id := toString n1;
            DrawingPath.tool := currentTool s;
            DrawingPath.points := [getMousePos canvas e];
            DrawingPath.color := strokeColor s;
            DrawingPath.strokeWidth := strokeWidth s;
            DrawingPath.timestamp := n2 |}
  /\ isDrawing s' = true
  /\ paths s' = paths s
  /\ undoStack s' = undoStack s
  /\ redoStack s' = redoStack s
  /\ s' = startDrawing props canvas e n1 n2 (setCurrentPath None s)
  /\ (forall later : list Event,
        run props later s'
        = run props later
            (startDrawing props canvas e n1 n2 (setCurrentPath None s))).
Proof.
  intros s Hd Hc s'.
  pose proof (run_consistent props evs initialState
                (initial_consistent props)) as Hcons.
  fold s in Hcons. unfold consistent in Hcons. rewrite Hc in Hcons.
  destruct Hcons as [_ Hro].
  assert (Heq : s' = startDrawing props canvas e n1 n2
                       (setCurrentPath None s)).
  { subst s'. unfold startDrawing. rewrite Hro. reflexivity. }
  split; [subst s'; unfold startDrawing; now rewrite Hro |].
  do 4 (split; [subst s'; unfold startDrawing; now rewrite Hro |]).
  split; [exact Heq |].
  intros later. now rewrite <- Heq.
Qed.

Lemma begin_discards_active_gesture_witness :
  currentPath drawing_over_redo
  = Some (DrawingPath.mk "2" pen [Point.mk 22 30; Point.mk 32 40]
            "#000000" 2 2)
  /\ currentPath
       (startDrawing defaultProps (Some sample_canvas) (mouse_at 108 200)
          3 3 drawing_over_redo)
     = Some (DrawingPath.mk "3" pen [Point.mk 100 100] "#000000" 2 3)
  /\ paths (startDrawing defaultProps (Some sample_canvas)
              (mouse_at 108 200) 3 3 drawing_over_redo)
     = paths drawing_over_redo.
Proof.
  pose proof (begin_discards_active_gesture defaultProps
    [ onMouseDown (Some sample_canvas) (mouse_at 18 110) 1 1;
      onMouseUp; clickUndo;
      onMouseDown (Some sample_canvas) (mouse_at 30 130) 2 2;
      onMouseMove (Some sample_canvas) (mouse_at 40 140) ]
    (DrawingPath.mk "2" pen [Point.mk 22 30; Point.mk 32 40] "#000000" 2 2)
    (Some sample_canvas) (mouse_at 108 200) 3 3 eq_refl eq_refl)
    as [Hc [_ [Hp _]]].
  split; [reflexivity |]. split; [exact Hc | exact Hp].
Defined.

(** ** Where committed paths come from *)

Lemma stack_empty_dec {A : Type} (l : list A) : {l = []} + {l <> []}.
Proof. destruct l; [left; reflexivity | right; discriminate]. Qed.

(** A path held after an event was held before it, or was begun by the
    event, or is the current path extended by one point. *)
Lemma handle_known_cases props (ev : Event) (s : State) (p : DrawingPath) :
  In p (known_paths (handle props ev s)) ->
  In p (known_paths s)
  \/ started_by ev p
  \/ exists cp pos,
       In cp (known_paths s)
       /\ p = with_points cp (DrawingPath.points cp ++ [pos]).
Proof.
  destruct ev; simpl handle.
  - unfold startDrawing. destruct (isReadOnly props); [tauto |].
    intros H.
    assert (Hc : In p (known_paths s) \/
                 {| DrawingPath.id := toString now_id;
                    DrawingPath.tool := currentTool s;
                    DrawingPath.points := [getMousePos canvas e];
                    DrawingPath.color := strokeColor s;
                    DrawingPath.strokeWidth := strokeWidth s;
                    DrawingPath.timestamp := now_ts |} = p)
      by (destruct (currentPath s); in_known).
    destruct Hc as [Hc | <-]; [tauto |].
    right; left. simpl. auto.
  - unfold draw. destruct (currentPath s) as [cp |] eqn:Hcp; [| tauto].
    destruct (negb (isDrawing s) || isReadOnly props); [tauto |].
    intros H.
    assert (Hc : In p (known_paths s) \/
                 with_points cp
                   (DrawingPath.points cp ++ [getMousePos canvas e]) = p).
    { unfold with_points. revert H. unfold known_paths. rewrite Hcp.
      simpl. rewrite !in_app_iff. simpl. tauto. }
    destruct Hc as [Hc | <-]; [tauto |].
    right; right. exists cp, (getMousePos canvas e).
    split; [| reflexivity].
    unfold known_paths. rewrite Hcp, !in_app_iff. simpl. tauto.
  - unfold stopDrawing. destruct (currentPath s) as [cp |] eqn:Hcp; [| tauto].
    destruct (negb (isDrawing s)); [tauto |].
    intros H. left. revert H. unfold known_paths. rewrite Hcp. in_known.
  - unfold stopDrawing. destruct (currentPath s) as [cp |] eqn:Hcp; [| tauto].
    destruct (negb (isDrawing s)); [tauto |].
    intros H. left. revert H. unfold known_paths. rewrite Hcp. in_known.
  - tauto.
  - tauto.
  - tauto.
  - destruct (undoStack s) as [| u us] eqn:Hu.
    + rewrite undo_empty by exact Hu. tauto.
    + assert (Hne : undoStack s <> []) by congruence.
      rewrite (undo_fields s Hne).
      destruct (exists_last Hne) as [l' [x Hl]].
      intros H. left. revert H. unfold known_paths. simpl.
      rewrite Hl, nth_push, slice_push. in_known.
  - destruct (redoStack s) as [| r rs] eqn:Hr.
    + rewrite redo_empty by exact Hr. tauto.
    + assert (Hne : redoStack s <> []) by congruence.
      rewrite (redo_fields s Hne).
      intros H. left. revert H. unfold known_paths. simpl.
      rewrite Hr. in_known.
  - rewrite clearCanvas_fields. intros H. left. revert H. in_known.
  - tauto.
Qed.

Lemma started_by_extended (ev : Event) (cp : DrawingPath) (pos : Point) :
  started_by ev cp ->
  started_by ev (with_points cp (DrawingPath.points cp ++ [pos])).
Proof.
  destruct ev; simpl; try tauto.
  intros [H0 [Hi Ht]]. repeat split; try assumption.
  destruct (DrawingPath.points cp); [discriminate | exact H0].
Qed.

(** Every path held after a run was begun by one of its mouse-downs, provided
    that holds of the paths the run starts with. *)
Lemma run_known props (evs : list Event) :
  forall (pre : list Event) (s : State),
    (forall q, In q (known_paths s) -> started_in pre q) ->
    forall p, In p (known_paths (run props evs s)) ->
      started_in (pre ++ evs) p.
Proof.
  induction evs as [| ev evs IH]; intros pre s Hinv p Hp.
  - rewrite app_nil_r. now apply Hinv.
  - replace (pre ++ ev :: evs) with ((pre ++ [ev]) ++ evs)
      by (now rewrite <- app_assoc).
    apply (IH (pre ++ [ev]) (handle props ev s)); [| exact Hp].
    intros q Hq.
    destruct (handle_known_cases props ev s q Hq)
      as [Hold | [Hnew | [cp [pos [Hcp ->]]]]].
    + destruct (Hinv q Hold) as [ev' [Hin Hs]].
      exists ev'. split; [apply in_or_app; now left | exact Hs].
    + exists ev. split; [apply in_or_app; right; now left | exact Hnew].
    + destruct (Hinv cp Hcp) as [ev' [Hin Hs]].
      exists ev'. split; [apply in_or_app; now left |].
      now apply started_by_extended.
Qed.

(** The committed paths after an event: those committed before, those of a
    snapshot, or the path a commit appends. *)
Lemma handle_paths_cases props (ev : Event) (s : State) (p : DrawingPath) :
  In p (paths (handle props ev s)) ->
  In p (paths s)
  \/ In p (concat (undoStack s))
  \/ In p (concat (redoStack s))
  \/ (is_commit ev s = true /\ currentPath s = Some p).
Proof.
  destruct (is_commit ev s) eqn:Hcom.
  - destruct (handle_commit props ev s Hcom) as [cp [Hc [Hp _]]].
    rewrite Hp, in_app_iff. simpl. intros [H | [<- | []]]; auto.
  - destruct ev; simpl handle; simpl in Hcom; try tauto.
    + intros H. left.
      now rewrite (proj1 (startDrawing_history props canvas e now_id now_ts s))
        in H.
    + intros H. left.
      now rewrite (proj1 (draw_history props canvas e s)) in H.
    + rewrite stopDrawing_idle by exact Hcom. tauto.
    + rewrite stopDrawing_idle by exact Hcom. tauto.
    + destruct (stack_empty_dec (undoStack s)) as [Hu | Hne].
      * rewrite undo_empty by exact Hu. tauto.
      * rewrite (undo_fields s Hne). simpl.
        destruct (exists_last Hne) as [l' [x Hl]].
        rewrite Hl, nth_push, concat_app, in_app_iff. simpl.
        rewrite app_nil_r. tauto.
    + destruct (stack_empty_dec (redoStack s)) as [Hr | Hne].
      * rewrite redo_empty by exact Hr. tauto.
      * rewrite (redo_fields s Hne). simpl.
        destruct (redoStack s) as [| r rs]; [congruence |]. simpl.
        rewrite in_app_iff. tauto.
    + rewrite clearCanvas_fields. simpl. tauto.
Qed.

(** C10. Committed paths hold at least one point.  In every state reached
    from the initial one, each committed path has a non-empty array of points
    whose first entry is the position of the mouse-down that began its
    gesture (the event its id and timestamp were read at).  This rests on
    three facts, stated for every state: [startDrawing] creates the
    in-progress path with exactly one point, the start position; [draw]
    keeps the points collected so far and at most appends one; and a path
    enters the committed sequence only through a commit of the in-progress
    path, the other events bringing back at most paths of a snapshot. *)
Theorem committed_paths_have_start_point props (evs : list Event) :
  let s := run props evs initialState in
  (forall p, In p (paths s) ->
     1 <= length (DrawingPath.points p)
     /\ DrawingPath.points p <> []
     /\ exists canvas e now_id now_ts,
          In (onMouseDown canvas e now_id now_ts) evs
          /\ first_point p = getMousePos canvas e
          /\ DrawingPath.id p = toString now_id
          /\ DrawingPath.timestamp p = now_ts)
  /\ (forall canvas e now_id now_ts (t : State),
        isReadOnly props = false ->
        exists np,
          currentPath (startDrawing props canvas e now_id now_ts t) = Some np
          /\ DrawingPath.points np = [getMousePos canvas e])
  /\ (forall canvas e (t : State) cp,
        currentPath t = Some cp ->
        exists cp',
          currentPath (draw props canvas e t) = Some cp'
          /\ (DrawingPath.points cp' = DrawingPath.points cp
              \/ DrawingPath.points cp'
                 = DrawingPath.points cp ++ [getMousePos canvas e]))
  /\ (forall (ev : Event) (t : State) q,
        In q (paths (handle props ev t)) ->
        In q (paths t)
        \/ In q (concat (undoStack t))
        \/ In q (concat (redoStack t))
        \/ (is_commit ev t = true /\ currentPath t = Some q)).
Proof.
  intros s.
  split; [| split; [| split]].
  - intros p Hp.
    assert (Hk : In p (known_paths s))
      by (unfold known_paths; apply in_or_app; now left).
    assert (Hinit : forall q, In q (known_paths initialState) ->
                      started_in [] q) by (intros q []).
    destruct (run_known props evs [] initialState Hinit p Hk)
      as [ev [Hin Hs]].
    simpl app in Hin.
    destruct ev; simpl in Hs; try contradiction.
    destruct Hs as [H0 [Hi Ht]].
    assert (Hlen : 1 <= length (DrawingPath.points p)).
    { destruct (DrawingPath.points p); [discriminate | simpl; lia]. }
    split; [exact Hlen |].
    split; [destruct (DrawingPath.points p); [discriminate | congruence] |].
    exists canvas, e, now_id, now_ts.
    split; [exact Hin |].
    split; [| now split].
    unfold first_point.
    destruct (DrawingPath.points p); [discriminate |].
    simpl in *. congruence.
  - intros canvas e now_id now_ts t Hro.
    unfold startDrawing. rewrite Hro. simpl. eexists. split; reflexivity.
  - intros canvas e t cp Hc. unfold draw. rewrite Hc.
    destruct (negb (isDrawing t) || isReadOnly props).
    + exists cp. split; [exact Hc | now left].
    + simpl. eexists. split; [reflexivity | now right].
  - intros ev t q. apply handle_paths_cases.
Qed.

Lemma committed_paths_have_start_point_witness :
  map first_point (paths three_paths)
  = [Point.mk 10 10; Point.mk 22 30; Point.mk 42 50]
  /\ (forall p, In p (paths three_paths) ->
        1 <= length (DrawingPath.points p))
  /\ exists np,
       currentPath (startDrawing defaultProps (Some sample_canvas)
                      (mouse_at 18 110) 1 1 three_paths) = Some np
       /\ DrawingPath.points np = [Point.mk 10 10].
Proof.
  pose proof (committed_paths_have_start_point defaultProps three_strokes)
    as [Hinv [Hstart _]].
  split; [reflexivity |].
  split.
  - intros p Hp. exact (proj1 (Hinv p Hp)).
  - exact (Hstart (Some sample_canvas) (mouse_at 18 110) 1%Z 1%Z
             three_paths eq_refl).
Defined.

(** ** Events outside a gesture, and read-only boards *)

Lemma draw_idle props canvas e (s : State) :
  gesture_active s = false -> draw props canvas e s = s.
Proof.
  unfold gesture_active, draw.
  destruct (currentPath s), (isDrawing s); simpl; congruence.
Qed.

(** X1. Gesture isolation: while no gesture is active, mouse-moves,
    mouse-ups and mouse-leaves, in any number and order, leave the whole
    state as it is: nothing is buffered, committed or pushed. *)
Theorem idle_canvas_events_ignored props (evs : list Event) (s : State) :
  gesture_active s = false ->
  Forall (fun ev => is_idle_canvas_event ev = true) evs ->
  run props evs s = s.
Proof.
  intros Hidle Hall. induction Hall as [| ev evs Hev _ IH]; [reflexivity |].
  simpl. destruct ev; simpl in Hev; try discriminate; simpl handle.
  - now rewrite draw_idle.
  - now rewrite stopDrawing_idle.
  - now rewrite stopDrawing_idle.
Qed.

Lemma idle_canvas_events_ignored_witness :
  run defaultProps
    [ onMouseMove (Some sample_canvas) (mouse_at 28 110); onMouseUp;
      onMouseMove None (mouse_at 0 0); onMouseLeave ] three_paths
  = three_paths.
Proof.
  apply idle_canvas_events_ignored; [reflexivity | repeat constructor].
Defined.

Lemma deliver_read_only props (ev : Event) (s : State) :
  isReadOnly props = true ->
  gesture_active s = false ->
  deliver props ev s = s.
Proof.
  intros Hro Hidle. unfold deliver, enabled.
  destruct ev; rewrite ?Hro; simpl; try reflexivity.
  - unfold startDrawing. now rewrite Hro.
  - now apply draw_idle.
  - now apply stopDrawing_idle.
  - now apply stopDrawing_idle.
Qed.

(** X2. A read-only whiteboard is inert: whatever the user does on the
    rendered component (the canvas listeners are still attached, the toolbar
    is not rendered), a board that is not in the middle of a gesture stays in
    the very state it is in; in particular a board mounted read-only never
    leaves its initial state. *)
Theorem read_only_board_inert props (evs : list Event) (s : State) :
  isReadOnly props = true ->
  gesture_active s = false ->
  ui_run props evs s = s
  /\ ui_run props evs initialState = initialState.
Proof.
  intros Hro Hidle.
  assert (H : forall t, gesture_active t = false -> ui_run props evs t = t).
  { induction evs as [| ev evs IH]; intros t Ht; [reflexivity |].
    simpl. rewrite (deliver_read_only props ev t Hro Ht). now apply IH. }
  split; [now apply H | now apply H].
Qed.

Lemma read_only_board_inert_witness :
  ui_run readOnlyProps (two_gestures ++ [clickClear; clickUndo]) initialState
  = initialState.
Proof.
  exact (proj2 (read_only_board_inert readOnlyProps
                  (two_gestures ++ [clickClear; clickUndo]) initialState
                  eq_refl eq_refl)).
Defined.

(** ** Whole gestures *)

Lemma draw_active props canvas e (s : State) (cp : DrawingPath) :
  isReadOnly props = false ->
  isDrawing s = true ->
  currentPath s = Some cp ->
  draw props canvas e s
  = setCurrentPath
      (Some (with_points cp (DrawingPath.points cp ++ [getMousePos canvas e])))
      s.
Proof.
  intros Hro Hd Hc. unfold draw. now rewrite Hc, Hd, Hro.
Qed.

(** Mouse-moves and selector clicks during a gesture extend the current path
    by the positions of the moves and touch nothing else of it. *)
Lemma run_mid_gesture props (mid : list Event) :
  forall (s : State) (cp : DrawingPath),
    isReadOnly props = false ->
    isDrawing s = true ->
    currentPath s = Some cp ->
    Forall (fun ev => is_mid_gesture_event ev = true) mid ->
    let s' := run props mid s in
    isDrawing s' = true
    /\ currentPath s'
       = Some (with_points cp (DrawingPath.points cp ++ move_positions mid))
    /\ paths s' = paths s
    /\ undoStack s' = undoStack s
    /\ redoStack s' = redoStack s.
Proof.
  induction mid as [| ev mid IH]; intros s cp Hro Hd Hc Hall.
  - simpl. rewrite app_nil_r. destruct cp. simpl. auto.
  - inversion Hall as [| ? ? Hev Hmid]; subst.
    destruct ev; simpl in Hev; try discriminate; simpl run;
      try (match goal with
           | |- context [run props mid ?t] =>
               exact (IH t cp Hro Hd Hc Hmid)
           end).
    simpl handle. rewrite (draw_active props canvas e s cp Hro Hd Hc).
    set (cp' := with_points cp
                  (DrawingPath.points cp ++ [getMousePos canvas e])).
    destruct (IH (setCurrentPath (Some cp') s) cp' Hro Hd eq_refl Hmid)
      as [H1 [H2 [H3 [H4 H5]]]].
    split; [exact H1 |].
    split; [| now repeat split].
    rewrite H2. unfold cp', with_points. simpl. now rewrite <- app_assoc.
Qed.

Lemma draw_is_queued props canvas e (s : State) :
  draw props canvas e s = draw_queued props canvas e s s.
Proof.
  unfold draw, draw_queued. destruct (currentPath s); [| reflexivity].
  now destruct (negb (isDrawing s) || isReadOnly props).
Qed.

(** Mouse-moves handled in the closure of one render all extend the path of
    that render: the update of the last one is the one that stays. *)
Lemma moves_in_one_render_last props (moves : list Move) :
  forall (r q : State) (cp : DrawingPath),
    isReadOnly props = false ->
    isDrawing r = true ->
    currentPath r = Some cp ->
    moves <> [] ->
    moves_in_one_render props moves r q
    = setCurrentPath
        (Some (with_points cp
                 (DrawingPath.points cp
                  ++ [last (map move_position moves) origin])))
        q.
Proof.
  induction moves as [| m moves IH]; intros r q cp Hro Hd Hc Hne;
    [congruence |].
  assert (Hstep : draw_queued props (fst m) (snd m) r q
                  = setCurrentPath
                      (Some (with_points cp
                               (DrawingPath.points cp ++ [move_position m])))
                      q).
  { unfold draw_queued. now rewrite Hc, Hd, Hro. }
  destruct moves as [| m' moves].
  - simpl. destruct m. exact Hstep.
  - change (moves_in_one_render props (m :: m' :: moves) r q)
      with (moves_in_one_render props (m' :: moves) r
              (draw_queued props (fst m) (snd m) r q)).
    rewrite (IH r _ cp Hro Hd Hc) by discriminate.
    rewrite Hstep. reflexivity.
Qed.

(** X3. A whole gesture, and what a render has to do with it.  On a writable
    board, when every event is handled in a render that has seen the updates
    of the event before it, a mouse-down followed by any number of
    mouse-moves, possibly mixed with clicks on the tool, colour and width
    selectors, and then a mouse-up, appends exactly one path to the committed
    ones: its points are the position of the mouse-down followed by the
    positions of all the moves, in order; its tool, colour and width are the
    ones selected when the mouse went down; the former committed sequence is
    pushed on the undo stack and the redo stack is emptied.  [draw] however
    extends the path of the render it closes over and sets the result as a
    plain value: of several mouse-moves handled before the next render only
    the last leaves its position, and the path then committed holds the
    position of the mouse-down and that one position. *)
Theorem gesture_commits_positions props c0 e0 now_id now_ts
    (mid : list Event) (moves : list Move) (s : State) :
  isReadOnly props = false ->
  Forall (fun ev => is_mid_gesture_event ev = true) mid ->
  moves <> [] ->
  let committed_with pts :=
    paths s ++
    [ {| DrawingPath.id := toString now_id;
         DrawingPath.tool := currentTool s;
         DrawingPath.points := pts;
         DrawingPath.color := strokeColor s;
         DrawingPath.strokeWidth := strokeWidth s;
         DrawingPath.timestamp := now_ts |} ] in
  let s' := run props (onMouseDown c0 e0 now_id now_ts :: mid ++ [onMouseUp])
              s in
  let s1 := startDrawing props c0 e0 now_id now_ts s in
  let batched := stopDrawing (moves_in_one_render props moves s1 s1) in
  (paths s' = committed_with (getMousePos c0 e0 :: move_positions mid)
   /\ undoStack s' = undoStack s ++ [paths s]
   /\ redoStack s' = []
   /\ currentPath s' = None
   /\ isDrawing s' = false)
  /\ (forall canvas e (t : State),
        draw props canvas e t = draw_queued props canvas e t t)
  /\ (paths batched
      = committed_with
          [getMousePos c0 e0; last (map move_position moves) origin]
      /\ undoStack batched = undoStack s ++ [paths s]
      /\ redoStack batched = []).
Proof.
  intros Hro Hall Hmoves committed_with s' s1 batched.
  pose (np := {| DrawingPath.id := toString now_id;
                 DrawingPath.tool := currentTool s;
                 DrawingPath.points := [getMousePos c0 e0];
                 DrawingPath.color := strokeColor s;
                 DrawingPath.strokeWidth := strokeWidth s;
                 DrawingPath.timestamp := now_ts |}).
  assert (Hs1 : isDrawing s1 = true /\ currentPath s1 = Some np
                /\ paths s1 = paths s /\ undoStack s1 = undoStack s).
  { unfold s1, startDrawing. rewrite Hro. simpl. auto. }
  destruct Hs1 as [Hd1 [Hc1 [Hp1 Hu1]]].
  split; [| split].
  - destruct (run_mid_gesture props mid s1 np Hro Hd1 Hc1 Hall)
      as [Hd [Hc [Hp [Hu _]]]].
    assert (Hs' : s' = stopDrawing (run props mid s1)).
    { unfold s', s1. simpl run. now rewrite run_app. }
    rewrite Hs', (stopDrawing_fields _ _ Hd Hc). simpl.
    rewrite Hp, Hu, Hp1, Hu1. unfold committed_with. auto.
  - intros canvas e t. apply draw_is_queued.
  - unfold batched.
    rewrite (moves_in_one_render_last props moves s1 s1 np Hro Hd1 Hc1
               Hmoves).
    rewrite (stopDrawing_fields _
               (with_points np
                  (DrawingPath.points np
                   ++ [last (map move_position moves) origin])))
      by (simpl; auto).
    simpl. rewrite Hp1, Hu1. unfold committed_with. auto.
Qed.

Lemma gesture_commits_positions_witness :
  let s' := run defaultProps
              (onMouseDown (Some sample_canvas) (mouse_at 18 110) 5 6
               :: long_drag ++ [onMouseUp]) three_paths in
  let batched :=
    stopDrawing
      (moves_in_one_render defaultProps two_moves
         (startDrawing defaultProps (Some sample_canvas) (mouse_at 18 110)
            5 6 three_paths)
         (startDrawing defaultProps (Some sample_canvas) (mouse_at 18 110)
            5 6 three_paths)) in
  paths s' =
    paths three_paths ++
    [ DrawingPath.mk "5" pen
        [Point.mk 10 10; Point.mk 20 10; Point.mk 30 20; Point.mk 40 30;
         Point.mk 50 40] "#000000" 2 6 ]
  /\ currentTool s' = circle
  /\ strokeColor s' = "#FF0000"
  /\ paths batched =
     paths three_paths ++
     [ DrawingPath.mk "5" pen [Point.mk 10 10; Point.mk 20 20]
         "#000000" 2 6 ].
Proof.
  assert (Hall : Forall (fun ev => is_mid_gesture_event ev = true) long_drag)
    by (repeat constructor).
  assert (Hmoves : two_moves <> []) by discriminate.
  pose proof (gesture_commits_positions defaultProps (Some sample_canvas)
                (mouse_at 18 110) 5 6 long_drag two_moves three_paths
                eq_refl Hall Hmoves)
    as [[Hp _] [_ [Hb _]]].
  split; [exact Hp |]. split; [reflexivity |]. split; [reflexivity |].
  exact Hb.
Defined.

(** ** History as a timeline *)

Lemma history_frame_refl (s : State) : history_frame s s.
Proof. repeat split. Qed.

Lemma history_frame_trans (s1 s2 s3 : State) :
  history_frame s1 s2 -> history_frame s2 s3 -> history_frame s1 s3.
Proof.
  unfold history_frame. intros [A1 [A2 [A3 [A4 [A5 A6]]]]]
    [B1 [B2 [B3 [B4 [B5 B6]]]]].
  repeat split; congruence.
Qed.

Lemma history_frame_undo (s : State) : history_frame s (undo s).
Proof.
  destruct (stack_empty_dec (undoStack s)) as [He | Hne].
  - rewrite undo_empty by exact He. apply history_frame_refl.
  - rewrite (undo_fields s Hne). unfold history_frame, timeline. simpl.
    repeat split.
    pose proof (slice_then_last (undoStack s) [] Hne) as E.
    set (F := firstn (length (undoStack s) - 1) (undoStack s)) in *.
    set (N := nth (length (undoStack s) - 1) (undoStack s) []) in *.
    rewrite <- E, <- app_assoc. reflexivity.
Qed.

Lemma history_frame_redo (s : State) : history_frame s (redo s).
Proof.
  destruct (stack_empty_dec (redoStack s)) as [He | Hne].
  - rewrite redo_empty by exact He. apply history_frame_refl.
  - rewrite (redo_fields s Hne). unfold history_frame, timeline. simpl.
    repeat split.
    pose proof (first_then_slice (redoStack s) [] Hne) as E.
    set (N := nth 0 (redoStack s) []) in *.
    set (K := skipn 1 (redoStack s)) in *.
    rewrite <- E, <- app_assoc. reflexivity.
Qed.

(** A sequence cut at a known index. *)
Lemma cut_at_cursor {A : Type} (U R : list A) (P d : A) :
  let T := U ++ [P] ++ R in
  U = firstn (length U) T
  /\ P = nth (length U) T d
  /\ R = skipn (S (length U)) T.
Proof.
  simpl. repeat split.
  - induction U as [| a U IH]; simpl; [reflexivity | now f_equal].
  - symmetry. apply nth_middle.
  - induction U as [| a U IH]; simpl; [reflexivity | exact IH].
Qed.

(** A state is determined by what undo and redo leave alone and by the
    height of its undo stack. *)
Lemma history_frame_cursor (s s' : State) :
  history_frame s s' ->
  let k := length (undoStack s') in
  s' = {| isDrawing := isDrawing s; currentTool := currentTool s;
          strokeColor := strokeColor s; strokeWidth := strokeWidth s;
          paths := nth k (timeline s) [];
          undoStack := firstn k (timeline s);
          redoStack := skipn (S k) (timeline s);
          currentPath := currentPath s |}.
Proof.
  intros [HT [H1 [H2 [H3 [H4 H5]]]]] k.
  destruct (cut_at_cursor (undoStack s') (redoStack s') (paths s') [])
    as [HU [HP HR]].
  fold (timeline s') in HU, HP, HR. rewrite HT in HU, HP, HR. fold k in HU, HP, HR.
  rewrite <- HU, <- HP, <- HR, <- H1, <- H2, <- H3, <- H4, <- H5.
  symmetry. apply state_eta.
Qed.

Lemma history_frame_run props (evs : list Event) :
  forall s : State,
    Forall (fun ev => is_history_navigation ev = true) evs ->
    history_frame s (run props evs s).
Proof.
  induction evs as [| ev evs IH]; intros s Hall; [apply history_frame_refl |].
  inversion Hall as [| ? ? Hev Hrest]; subst. simpl run.
  apply (history_frame_trans s (handle props ev s)); [| now apply IH].
  destruct ev; simpl in Hev; try discriminate; simpl.
  - apply history_frame_undo.
  - apply history_frame_redo.
Qed.

(** X4. Undo and redo walk along a fixed timeline.  Whatever sequence of
    undo and redo clicks is made, the sequence formed by the undo snapshots,
    the committed paths and the redo snapshots stays the same; only the
    position of the committed paths in it moves.  The state reached is
    determined by that position: the undo stack is the part of the timeline
    before it, the committed paths the entry at it, the redo stack the part
    after it, and nothing else of the state changes. *)
Theorem history_navigation_is_a_cursor props (evs : list Event) (s : State) :
  Forall (fun ev => is_history_navigation ev = true) evs ->
  let s' := run props evs s in
  let k := length (undoStack s') in
  timeline s' = timeline s
  /\ k < length (timeline s)
  /\ s' = {| isDrawing := isDrawing s; currentTool := currentTool s;
             strokeColor := strokeColor s; strokeWidth := strokeWidth s;
             paths := nth k (timeline s) [];
             undoStack := firstn k (timeline s);
             redoStack := skipn (S k) (timeline s);
             currentPath := currentPath s |}.
Proof.
  intros Hall s' k.
  pose proof (history_frame_run props evs s Hall) as Hf. fold s' in Hf.
  split; [apply Hf |].
  split.
  - destruct Hf as [HT _]. rewrite <- HT. unfold timeline, k.
    rewrite !length_app. simpl. lia.
  - now apply history_frame_cursor.
Qed.

Lemma history_navigation_is_a_cursor_witness :
  let s := handle defaultProps clickClear three_paths in
  let s' := run defaultProps walk_history s in
  timeline s' = timeline s
  /\ length (undoStack s') = 1
  /\ map (@length DrawingPath) (timeline s) = [0; 1; 2; 3; 0]
  /\ length (paths s') = 1.
Proof.
  assert (Hall : Forall (fun ev => is_history_navigation ev = true)
                   walk_history) by (repeat constructor).
  pose proof (history_navigation_is_a_cursor defaultProps walk_history
                (handle defaultProps clickClear three_paths) Hall)
    as [HT _].
  split; [exact HT |]. repeat split.
Defined.

Lemma iter_fixed {A : Type} (f : A -> A) (x : A) (n : nat) :
  f x = x -> Nat.iter n f x = x.
Proof.
  intros H. induction n as [| n IH]; [reflexivity |].
  rewrite Nat.iter_succ, IH. exact H.
Qed.

Lemma redo_stack_length (s : State) :
  length (redoStack (redo s)) = length (redoStack s) - 1.
Proof.
  destruct (stack_empty_dec (redoStack s)) as [He | Hne].
  - rewrite redo_empty by exact He. rewrite He. reflexivity.
  - rewrite (redo_fields s Hne). simpl.
    destruct (redoStack s); [congruence | simpl; lia].
Qed.

Lemma iter_undo_frame (n : nat) (s : State) :
  history_frame s (Nat.iter n undo s)
  /\ length (undoStack (Nat.iter n undo s)) = length (undoStack s) - n.
Proof.
  induction n as [| n [IHf IHl]].
  - split; [apply history_frame_refl | simpl; lia].
  - rewrite Nat.iter_succ. split.
    + apply (history_frame_trans _ _ _ IHf), history_frame_undo.
    + rewrite undo_stack_length, IHl. lia.
Qed.

Lemma iter_redo_frame (n : nat) (s : State) :
  history_frame s (Nat.iter n redo s)
  /\ length (redoStack (Nat.iter n redo s)) = length (redoStack s) - n.
Proof.
  induction n as [| n [IHf IHl]].
  - split; [apply history_frame_refl | simpl; lia].
  - rewrite Nat.iter_succ. split.
    + apply (history_frame_trans _ _ _ IHf), history_frame_redo.
    + rewrite redo_stack_length, IHl. lia.
Qed.

(** X5. Undo and redo stop at the ends of the timeline.  Undoing at least as
    often as there are undo snapshots reaches the oldest entry of the
    timeline and stays there: the undo stack is empty, the committed paths
    are the first entry, all the later entries wait on the redo stack, and
    more undos change nothing.  Symmetrically, redoing at least as often as
    there are redo snapshots reaches the newest entry and stays there. *)
Theorem undo_redo_saturate (n : nat) (s : State) :
  (length (undoStack s) <= n ->
     Nat.iter n undo s = Nat.iter (length (undoStack s)) undo s
     /\ undoStack (Nat.iter n undo s) = []
     /\ paths (Nat.iter n undo s) = nth 0 (timeline s) []
     /\ redoStack (Nat.iter n undo s) = skipn 1 (timeline s)
     /\ undo (Nat.iter n undo s) = Nat.iter n undo s)
  /\ (length (redoStack s) <= n ->
     Nat.iter n redo s = Nat.iter (length (redoStack s)) redo s
     /\ redoStack (Nat.iter n redo s) = []
     /\ paths (Nat.iter n redo s)
        = nth (length (timeline s) - 1) (timeline s) []
     /\ undoStack (Nat.iter n redo s)
        = firstn (length (timeline s) - 1) (timeline s)
     /\ redo (Nat.iter n redo s) = Nat.iter n redo s).
Proof.
  split; intros Hn.
  - destruct (iter_undo_frame n s) as [Hf Hl].
    destruct (iter_undo_frame (length (undoStack s)) s) as [Hf0 Hl0].
    replace (length (undoStack s) - n) with 0 in Hl by lia.
    rewrite Nat.sub_diag in Hl0.
    pose proof (history_frame_cursor s _ Hf) as E. simpl in E.
    pose proof (history_frame_cursor s _ Hf0) as E0. simpl in E0.
    rewrite Hl in E. rewrite Hl0 in E0.
    assert (Hempty : undoStack (Nat.iter n undo s) = []).
    { destruct (undoStack (Nat.iter n undo s)); [reflexivity | discriminate]. }
    split; [now rewrite E0 |].
    split; [exact Hempty |].
    split; [now rewrite E |].
    split; [now rewrite E |].
    now apply undo_empty.
  - destruct (iter_redo_frame n s) as [Hf Hl].
    destruct (iter_redo_frame (length (redoStack s)) s) as [Hf0 Hl0].
    replace (length (redoStack s) - n) with 0 in Hl by lia.
    rewrite Nat.sub_diag in Hl0.
    assert (Hcur : forall t, history_frame s t ->
                     length (redoStack t) = 0 ->
                     length (undoStack t) = length (timeline s) - 1).
    { intros t [HT _] H0. rewrite <- HT. unfold timeline.
      rewrite !length_app, H0. simpl. lia. }
    pose proof (history_frame_cursor s _ Hf) as E. simpl in E.
    pose proof (history_frame_cursor s _ Hf0) as E0. simpl in E0.
    rewrite (Hcur _ Hf Hl) in E. rewrite (Hcur _ Hf0 Hl0) in E0.
    assert (Hempty : redoStack (Nat.iter n redo s) = []).
    { destruct (redoStack (Nat.iter n redo s)); [reflexivity | discriminate]. }
    split; [now rewrite E0 |].
    split; [exact Hempty |].
    split; [now rewrite E |].
    split; [now rewrite E |].
    now apply redo_empty.
Qed.

Lemma undo_redo_saturate_witness :
  Nat.iter 10 undo three_paths = Nat.iter 3 undo three_paths
  /\ paths (Nat.iter 10 undo three_paths) = []
  /\ length (redoStack (Nat.iter 10 undo three_paths)) = 3
  /\ Nat.iter 7 redo (Nat.iter 10 undo three_paths) = three_paths.
Proof.
  pose proof (undo_redo_saturate 10 three_paths) as [Hu _].
  destruct Hu as [H1 [_ [H3 [H4 _]]]]; [simpl; lia |].
  pose proof (undo_redo_saturate 7 (Nat.iter 10 undo three_paths)) as [_ Hr].
  destruct Hr as [H5 _]; [rewrite H4; simpl; lia |].
  split; [exact H1 |]. split; [now rewrite H3 |].
  split; [now rewrite H4 |].
  rewrite H5. vm_compute. reflexivity.
Defined.

(** ** What the disabled buttons guarantee *)

Lemma steps_differ_prefix (l1 l2 : list (list DrawingPath)) :
  steps_differ (l1 ++ l2) = true -> steps_differ l1 = true.
Proof.
  induction l1 as [| a l1 IH]; [reflexivity |].
  simpl. intros H. apply andb_true_iff in H. destruct H as [Ha Hr].
  apply andb_true_iff. split; [| now apply IH].
  destruct l1; [reflexivity | exact Ha].
Qed.

Lemma steps_differ_push (U : list (list DrawingPath)) (P Q : list DrawingPath) :
  steps_differ (U ++ [P]) = true ->
  length P <> length Q ->
  steps_differ (U ++ [P; Q]) = true.
Proof.
  intros HU Hne. induction U as [| a U IH].
  - simpl. apply Nat.eqb_neq in Hne. now rewrite Hne.
  - simpl in *. apply andb_true_iff in HU. destruct HU as [Ha Hr].
    apply andb_true_iff. split; [| now apply IH].
    destruct U; exact Ha.
Qed.

Lemma steps_differ_adjacent (U R : list (list DrawingPath))
    (x P : list DrawingPath) :
  steps_differ (U ++ x :: P :: R) = true -> length x <> length P.
Proof.
  induction U as [| a U IH]; simpl; intros H;
    apply andb_true_iff in H; destruct H as [Ha Hr].
  - apply negb_true_iff in Ha. now apply Nat.eqb_neq.
  - now apply IH.
Qed.

Lemma timeline_fields (s : State) U P R :
  undoStack s = U -> paths s = P -> redoStack s = R ->
  timeline s = U ++ [P] ++ R.
Proof. intros <- <- <-. reflexivity. Qed.

(** Every action on an enabled control keeps successive timeline entries of
    different sizes. *)
Lemma deliver_steps_differ props (ev : Event) (s : State) :
  steps_differ (timeline s) = true ->
  steps_differ (timeline (deliver props ev s)) = true.
Proof.
  intros Hinv. unfold deliver.
  destruct (enabled props ev s) eqn:En; [| exact Hinv].
  assert (Hpre : steps_differ (undoStack s ++ [paths s]) = true).
  { unfold timeline in Hinv. rewrite app_assoc in Hinv.
    now apply steps_differ_prefix in Hinv. }
  destruct (is_commit ev s) eqn:Hcom.
  - destruct (handle_commit props ev s Hcom)
      as [cp [_ [Hp [Hu [Hr _]]]]].
    rewrite (timeline_fields _ _ _ _ Hu Hp Hr). simpl.
    rewrite <- app_assoc. simpl. apply steps_differ_push; [exact Hpre |].
    rewrite length_app. simpl. lia.
  - destruct (is_capture_event ev) eqn:Hcap.
    + destruct (handle_keeps_history props ev s Hcap Hcom) as [Hp [Hu Hr]].
      now rewrite (timeline_fields _ _ _ _ Hu Hp Hr).
    + destruct ev; simpl in Hcap; try discriminate; simpl handle.
      * destruct (history_frame_undo s) as [HT _]. now rewrite HT.
      * destruct (history_frame_redo s) as [HT _]. now rewrite HT.
      * rewrite clearCanvas_fields. unfold timeline. simpl.
        simpl in En. apply andb_true_iff in En. destruct En as [_ En].
        apply negb_true_iff, Nat.eqb_neq in En.
        rewrite <- app_assoc. simpl.
        apply (steps_differ_push _ _ [] Hpre). simpl. lia.
Qed.

Lemma ui_run_steps_differ props (evs : list Event) :
  forall s : State,
    steps_differ (timeline s) = true ->
    steps_differ (timeline (ui_run props evs s)) = true.
Proof.
  induction evs as [| ev evs IH]; intros s H; simpl; [exact H |].
  apply IH. now apply deliver_steps_differ.
Qed.

(** X6. An enabled undo or redo always changes the number of committed
    paths.  In every state the user can reach through the rendered controls,
    successive entries of the timeline hold different numbers of paths, so
    that whenever the undo (or redo) button is enabled, clicking it changes
    the path count.  This rests on the clear button being disabled on an
    empty board: [clearCanvas] itself, called on the initial state, pushes an
    empty snapshot whose undo changes nothing. *)
Theorem enabled_undo_changes_path_count props (evs : list Event) :
  let s := ui_run props evs initialState in
  steps_differ (timeline s) = true
  /\ (undoStack s <> [] -> length (paths (undo s)) <> length (paths s))
  /\ (redoStack s <> [] -> length (paths (redo s)) <> length (paths s))
  /\ (undoStack (clearCanvas initialState) <> []
      /\ paths (undo (clearCanvas initialState))
         = paths (clearCanvas initialState)).
Proof.
  intros s.
  assert (Hinv : steps_differ (timeline s) = true)
    by (apply ui_run_steps_differ; reflexivity).
  split; [exact Hinv |].
  split; [| split].
  - intros Hne. rewrite (undo_fields s Hne). simpl.
    destruct (exists_last Hne) as [U [x HU]].
    rewrite HU, nth_push.
    unfold timeline in Hinv. rewrite HU, <- app_assoc in Hinv.
    exact (steps_differ_adjacent _ _ _ _ Hinv).
  - intros Hne. rewrite (redo_fields s Hne). simpl.
    unfold timeline in Hinv. simpl in Hinv.
    destruct (redoStack s) as [| r R]; [congruence |]. simpl.
    apply not_eq_sym. exact (steps_differ_adjacent _ _ _ _ Hinv).
  - split; [discriminate | reflexivity].
Qed.

Lemma enabled_undo_changes_path_count_witness :
  let s := ui_run defaultProps
             (clickClear :: three_strokes ++ [clickClear; clickClear;
                                              clickUndo])
             initialState in
  length (undoStack s) = 3
  /\ length (paths s) = 3
  /\ length (paths (undo s)) = 2
  /\ length (paths (redo s)) = 0.
Proof.
  pose proof (enabled_undo_changes_path_count defaultProps
                (clickClear :: three_strokes ++ [clickClear; clickClear;
                                                 clickUndo]))
    as [_ [Hu [Hr _]]].
  assert (H1 := Hu ltac:(discriminate)).
  assert (H2 := Hr ltac:(discriminate)).
  repeat split.
Defined.

(** ** Styles of the paths *)

Lemma palette_color (c : string) :
  existsb (String.eqb c) colors = true -> In c colors.
Proof.
  intros H. apply existsb_exists in H. destruct H as [c' [Hin Heq]].
  apply String.eqb_eq in Heq. now subst.
Qed.

Lemma palette_width (w : float) :
  existsb (PrimFloat.Leibniz.eqb w) strokeWidths = true -> In w strokeWidths.
Proof.
  intros H. apply existsb_exists in H. destruct H as [w' [Hin Heq]].
  apply Leibniz.eqb_spec in Heq. now subst.
Qed.

Lemma deliver_palette_styles props (ev : Event) (s : State) :
  palette_styles s -> palette_styles (deliver props ev s).
Proof.
  intros [Hc [Hw Hk]]. unfold deliver.
  destruct (enabled props ev s) eqn:En; [| exact (conj Hc (conj Hw Hk))].
  assert (Hothers :
    strokeColor (handle props ev s) = strokeColor s ->
    strokeWidth (handle props ev s) = strokeWidth s ->
    (forall p, started_by ev p -> False) ->
    palette_styles (handle props ev s)).
  { intros E1 E2 Hns. unfold palette_styles. rewrite E1, E2.
    split; [exact Hc |]. split; [exact Hw |].
    intros p Hp.
    destruct (handle_known_cases props ev s p Hp)
      as [Hold | [Hnew | [cp [pos [Hcp ->]]]]].
    - now apply Hk.
    - destruct (Hns p Hnew).
    - exact (Hk cp Hcp). }
  destruct ev.
  - simpl handle. unfold startDrawing.
    destruct (isReadOnly props); [exact (conj Hc (conj Hw Hk)) |].
    split; [exact Hc |]. split; [exact Hw |].
    intros p Hp.
    assert (Hcase : In p (known_paths s)
      \/ (DrawingPath.color p = strokeColor s
          /\ DrawingPath.strokeWidth p = strokeWidth s)).
    { revert Hp. unfold known_paths. simpl.
      rewrite !in_app_iff. simpl.
      intros [H | [H | [H | [<- | []]]]]; auto. }
    destruct Hcase as [Hold | [E1 E2]]; [now apply Hk |].
    now rewrite E1, E2.
  - apply Hothers; simpl; auto.
    + unfold draw. destruct (currentPath s); [| reflexivity].
      now destruct (negb (isDrawing s) || isReadOnly props).
    + unfold draw. destruct (currentPath s); [| reflexivity].
      now destruct (negb (isDrawing s) || isReadOnly props).
  - apply Hothers; simpl; auto.
    + unfold stopDrawing. destruct (currentPath s); [| reflexivity].
      now destruct (negb (isDrawing s)).
    + unfold stopDrawing. destruct (currentPath s); [| reflexivity].
      now destruct (negb (isDrawing s)).
  - apply Hothers; simpl; auto.
    + unfold stopDrawing. destruct (currentPath s); [| reflexivity].
      now destruct (negb (isDrawing s)).
    + unfold stopDrawing. destruct (currentPath s); [| reflexivity].
      now destruct (negb (isDrawing s)).
  - apply Hothers; simpl; auto.
  - simpl in En. apply andb_true_iff in En. destruct En as [_ En].
    split; [exact (palette_color c En) |]. split; [exact Hw | exact Hk].
  - simpl in En. apply andb_true_iff in En. destruct En as [_ En].
    split; [exact Hc |]. split; [exact (palette_width w En) | exact Hk].
  - apply Hothers; simpl; auto.
    + unfold undo. now destruct (length (undoStack s) =? 0).
    + unfold undo. now destruct (length (undoStack s) =? 0).
  - apply Hothers; simpl; auto.
    + unfold redo. now destruct (length (redoStack s) =? 0).
    + unfold redo. now destruct (length (redoStack s) =? 0).
  - apply Hothers; simpl; auto.
  - apply Hothers; simpl; auto.
Qed.

Lemma ui_run_palette_styles props (evs : list Event) :
  forall s : State, palette_styles s -> palette_styles (ui_run props evs s).
Proof.
  induction evs as [| ev evs IH]; intros s H; simpl; [exact H |].
  apply IH. now apply deliver_palette_styles.
Qed.

(** X7. Styles come from the toolbar.  In every state the user can reach
    through the rendered controls, the selected colour is one of the eight
    swatches and the selected width one of the five widths, and so are the
    colour and the width of the in-progress path, of every committed path and
    of every path kept in a snapshot of the undo or redo stack. *)
Theorem path_styles_from_palette props (evs : list Event) (p : DrawingPath) :
  let s := ui_run props evs initialState in
  In (strokeColor s) colors
  /\ In (strokeWidth s) strokeWidths
  /\ (In p (known_paths s) ->
      In (DrawingPath.color p) colors
      /\ In (DrawingPath.strokeWidth p) strokeWidths).
Proof.
  intros s.
  assert (Hinit : palette_styles initialState).
  { split; [simpl; tauto |]. split; [simpl; tauto |]. intros q []. }
  destruct (ui_run_palette_styles props evs initialState Hinit)
    as [Hc [Hw Hk]].
  split; [exact Hc |]. split; [exact Hw |]. apply Hk.
Qed.

Lemma path_styles_from_palette_witness :
  let s := ui_run defaultProps
             [ clickColor "#123456"; clickColor "#00FF00"; clickWidth 3;
               clickWidth 8;
               onMouseDown (Some sample_canvas) (mouse_at 18 110) 1 1;
               onMouseMove (Some sample_canvas) (mouse_at 28 110);
               onMouseUp ] initialState in
  map DrawingPath.color (paths s) = ["#00FF00"]
  /\ In 8%float strokeWidths
  /\ map DrawingPath.strokeWidth (paths s) = [8%float].
Proof.
  pose (p := DrawingPath.mk "1" pen [Point.mk 10 10; Point.mk 20 10]
               "#00FF00" 8 1).
  pose proof (path_styles_from_palette defaultProps
    [ clickColor "#123456"; clickColor "#00FF00"; clickWidth 3; clickWidth 8;
      onMouseDown (Some sample_canvas) (mouse_at 18 110) 1 1;
      onMouseMove (Some sample_canvas) (mouse_at 28 110);
      onMouseUp ] p) as [_ [_ Hk]].
  destruct Hk as [_ Hw]; [left; reflexivity |].
  split; [reflexivity |]. split; [exact Hw | reflexivity].
Defined.

(** ** Layers of a redraw *)

Lemma nested_plain (before : list Shape) (below : list DrawingState)
    (c : Context2D) (op : CanvasOp) :
  is_stack_op op = false ->
  exec (nested before below c) op = nested before below (exec c op).
Proof.
  intros Hop. destruct op; simpl in Hop; try discriminate; unfold exec;
    repeat match goal with
           | |- context [if ?b then _ else _] => destruct b
           end;
    unfold nested, emit, with_state, with_path; simpl;
    rewrite ?app_assoc; reflexivity.
Qed.

Lemma run_nested_plain (before : list Shape) (below : list DrawingState)
    (ops : list CanvasOp) :
  forall c : Context2D,
    forallb (fun op => negb (is_stack_op op)) ops = true ->
    run_ops (nested before below c) ops
    = nested before below (run_ops c ops).
Proof.
  induction ops as [| op ops IH]; intros c Hall; [reflexivity |].
  simpl in Hall. apply andb_true_iff in Hall. destruct Hall as [Hop Hall].
  apply negb_true_iff in Hop.
  change (run_ops (nested before below c) (op :: ops))
    with (run_ops (exec (nested before below c) op) ops).
  rewrite (nested_plain _ _ _ _ Hop). now apply IH.
Qed.

Lemma exec_plain_saved (c : Context2D) (op : CanvasOp) :
  is_stack_op op = false ->
  savedStates (exec c op) = savedStates c.
Proof.
  intros Hop. destruct op; simpl in Hop; try discriminate; unfold exec;
    repeat match goal with
           | |- context [if ?b then _ else _] => destruct b
           end;
    reflexivity.
Qed.

Lemma run_plain_saved (ops : list CanvasOp) :
  forall c : Context2D,
    forallb (fun op => negb (is_stack_op op)) ops = true ->
    savedStates (run_ops c ops) = savedStates c.
Proof.
  induction ops as [| op ops IH]; intros c Hall; [reflexivity |].
  simpl in Hall. apply andb_true_iff in Hall. destruct Hall as [Hop Hall].
  apply negb_true_iff in Hop.
  change (run_ops c (op :: ops)) with (run_ops (exec c op) ops).
  rewrite (IH _ Hall). apply (exec_plain_saved c op Hop).
Qed.

Lemma lineTos_plain (pts : list Point) :
  forallb (fun op => negb (is_stack_op op)) (map lineTo_point pts) = true.
Proof. induction pts as [| p pts IH]; [reflexivity | exact IH]. Qed.

(** A drawn path brackets its calls between one [save] and one [restore]. *)
Lemma drawPath_bracket (path : DrawingPath) :
  drawPath path = []
  \/ (drawPath path = save :: drawPath_body path ++ [restore]
      /\ forallb (fun op => negb (is_stack_op op)) (drawPath_body path)
         = true
      /\ exists rest,
           drawPath_body path
           = [ set_strokeStyle (DrawingPath.color path);
               set_lineWidth (DrawingPath.strokeWidth path);
               set_lineCap "round"; set_lineJoin "round";
               set_globalCompositeOperation
                 (if Tool_eqb (DrawingPath.tool path) eraser
                  then "destination-out" else "source-over");
               beginPath ] ++ rest).
Proof.
  assert (Hcase :
    drawPath path = []
    \/ exists rest,
         drawPath path
         = save :: ([ set_strokeStyle (DrawingPath.color path);
                      set_lineWidth (DrawingPath.strokeWidth path);
                      set_lineCap "round"; set_lineJoin "round";
                      set_globalCompositeOperation
                        (if Tool_eqb (DrawingPath.tool path) eraser
                         then "destination-out" else "source-over");
                      beginPath ] ++ rest) ++ [restore]
         /\ forallb (fun op => negb (is_stack_op op)) rest = true).
  { unfold drawPath.
    destruct (length (DrawingPath.points path) <? 2); [now left |].
    right.
    set (lines := map (fun p => lineTo (Point.x p) (Point.y p))
                    (skipn 1 (DrawingPath.points path))).
    set (branch := if Tool_eqb (DrawingPath.tool path) rectangle
                      && (2 <=? length (DrawingPath.points path))
                   then _ else _).
    exists (moveTo (Point.x (nth 0 (DrawingPath.points path) origin))
                   (Point.y (nth 0 (DrawingPath.points path) origin))
            :: lines ++ branch ++ [stroke]).
    split.
    - simpl. do 8 f_equal. now rewrite <- !app_assoc.
    - assert (Hl : forallb (fun op => negb (is_stack_op op)) lines = true)
        by apply lineTos_plain.
      simpl. rewrite !forallb_app, Hl. unfold branch.
      destruct (Tool_eqb (DrawingPath.tool path) rectangle
                && (2 <=? length (DrawingPath.points path)));
        [reflexivity |].
      destruct (Tool_eqb (DrawingPath.tool path) circle
                && (2 <=? length (DrawingPath.points path))); reflexivity. }
  destruct Hcase as [He | [rest [Hd Hp]]]; [now left |].
  right. unfold drawPath_body. rewrite Hd. cbn [skipn].
  rewrite removelast_last.
  split; [reflexivity |].
  split; [simpl; exact Hp |].
  now exists rest.
Qed.

(** Until its [beginPath] a drawn path makes no use of the current path. *)
Lemma drawPath_forgets_current_path (path : DrawingPath) (c : Context2D)
    (sp : list Segment) :
  drawPath path <> [] ->
  run_ops (with_path (fun _ => sp) c) (drawPath path)
  = run_ops c (drawPath path).
Proof.
  intros Hne.
  destruct (drawPath_bracket path) as [He | [Hd [_ [rest Hr]]]];
    [congruence |].
  rewrite Hd, Hr.
  change (save :: ?l ++ [restore]) with ([save] ++ l ++ [restore]).
  rewrite <- !app_assoc, !app_assoc, !run_ops_app.
  do 2 f_equal.
  rewrite <- !run_ops_app. simpl app.
  unfold run_ops. simpl fold_left. unfold exec.
  destruct (negb (PrimFloat.is_finite (DrawingPath.strokeWidth path)
                  && (0 <? DrawingPath.strokeWidth path)%float));
    reflexivity.
Qed.

Lemma nested_self (c : Context2D) :
  c = nested (bitmap c) (savedStates c)
        (with_path (fun _ => currentSubpaths c)
                   (context_with (drawingState c))).
Proof.
  destruct c. unfold nested, with_path, context_with. simpl.
  now rewrite app_nil_r.
Qed.

Lemma run_bracket (c : Context2D) (body : list CanvasOp) :
  run_ops c (save :: body ++ [restore])
  = exec (run_ops (exec c save) body) restore.
Proof.
  change (save :: body ++ [restore]) with ([save] ++ body ++ [restore]).
  now rewrite !run_ops_app.
Qed.

Lemma exec_restore (c : Context2D) (d : DrawingState)
    (rest : list DrawingState) :
  savedStates c = d :: rest ->
  exec c restore
  = {| drawingState := d; savedStates := rest;
       currentSubpaths := currentSubpaths c; bitmap := bitmap c |}.
Proof. intros H. unfold exec. now rewrite H. Qed.

Lemma nested_restore (before : list Shape) (below : list DrawingState)
    (c : Context2D) :
  savedStates c <> [] ->
  exec (nested before below c) restore
  = nested before below (exec c restore).
Proof.
  intros Hne. unfold exec, nested. simpl.
  destruct (savedStates c); [congruence | reflexivity].
Qed.

(** [drawPath] on any context: the drawing state and the saved states are
    the ones found, and the shapes painted are appended to the bitmap; they
    are the shapes the path paints on a context in the same drawing state
    with no current path and an empty bitmap. *)
Lemma run_drawPath (c : Context2D) (path : DrawingPath) :
  drawingState (run_ops c (drawPath path)) = drawingState c
  /\ savedStates (run_ops c (drawPath path)) = savedStates c
  /\ bitmap (run_ops c (drawPath path))
     = bitmap c ++ shapes_of (drawingState c) path.
Proof.
  unfold shapes_of.
  destruct (drawPath_bracket path) as [He | [Hd [Hplain _]]].
  - rewrite He. simpl. now rewrite app_nil_r.
  - assert (Hne : drawPath path <> []) by (rewrite Hd; discriminate).
    set (c0 := context_with (drawingState c)).
    set (c0' := with_path (fun _ => currentSubpaths c) c0).
    assert (Hsaved : forall t : Context2D,
              savedStates t = [] ->
              savedStates (run_ops (exec t save) (drawPath_body path))
              = [drawingState t]).
    { intros t Ht. rewrite (run_plain_saved _ _ Hplain). simpl.
      now rewrite Ht. }
    assert (Hiso : drawingState (run_ops c0 (drawPath path)) = drawingState c
                   /\ savedStates (run_ops c0 (drawPath path)) = []).
    { rewrite Hd, run_bracket.
      rewrite (exec_restore _ _ _ (Hsaved c0 eq_refl)). now split. }
    assert (Hrun : run_ops c (drawPath path)
                   = nested (bitmap c) (savedStates c)
                       (run_ops c0 (drawPath path))).
    { rewrite (nested_self c) at 1. fold c0. fold c0'.
      rewrite <- (drawPath_forgets_current_path path c0
                    (currentSubpaths c) Hne).
      fold c0'. rewrite Hd, !run_bracket.
      change (exec (nested (bitmap c) (savedStates c) c0') save)
        with (nested (bitmap c) (savedStates c) (exec c0' save)).
      rewrite (run_nested_plain _ _ _ _ Hplain).
      apply nested_restore.
      rewrite (Hsaved c0' eq_refl). discriminate. }
    destruct Hiso as [I1 I2].
    rewrite Hrun. unfold nested. simpl. rewrite I1, I2. auto.
Qed.

(** X8. A drawn path leaves the context as it found it.  Whatever the
    context holds when [drawPath] is called (styles, saved states, a current
    path left over by an earlier call, shapes already painted), the drawing
    state and the stack of saved states are the same after the call, the
    shapes painted before are all kept, in order, and the shapes added depend
    on the path and on the drawing state found only: no style, and no
    eraser mode, leaks from one path into the next. *)
Theorem drawPath_leaves_context (c : Context2D) (path : DrawingPath) :
  drawingState (run_ops c (drawPath path)) = drawingState c
  /\ savedStates (run_ops c (drawPath path)) = savedStates c
  /\ bitmap (run_ops c (drawPath path))
     = bitmap c ++ shapes_of (drawingState c) path
  /\ (forall c' : Context2D,
        drawingState c' = drawingState c ->
        skipn (length (bitmap c')) (bitmap (run_ops c' (drawPath path)))
        = skipn (length (bitmap c)) (bitmap (run_ops c (drawPath path)))).
Proof.
  destruct (run_drawPath c path) as [H1 [H2 H3]].
  split; [exact H1 |]. split; [exact H2 |]. split; [exact H3 |].
  intros c' Hst.
  destruct (run_drawPath c' path) as [_ [_ H3']].
  rewrite H3, H3', Hst.
  rewrite !skipn_app, !Nat.sub_diag, !skipn_all. reflexivity.
Qed.

Lemma run_background (cv : HTMLCanvasElement) :
  run_ops freshContext (background_ops cv)
  = {| drawingState := white_fill; savedStates := [];
       currentSubpaths := []; bitmap := background cv |}.
Proof.
  unfold background, paint, background_ops, run_ops. cbn [fold_left].
  unfold exec, freshContext.
  repeat match goal with
         | |- context [if ?b then _ else _] => destruct b
         end;
    reflexivity.
Qed.

Lemma run_paths (ps : list DrawingPath) :
  forall c : Context2D,
    drawingState (run_ops c (flat_map drawPath ps)) = drawingState c
    /\ bitmap (run_ops c (flat_map drawPath ps))
       = bitmap c ++ flat_map (shapes_of (drawingState c)) ps.
Proof.
  induction ps as [| p ps IH]; intros c.
  - simpl. now rewrite app_nil_r.
  - simpl flat_map. rewrite run_ops_app.
    destruct (run_drawPath c p) as [H1 [_ H3]].
    destruct (IH (run_ops c (drawPath p))) as [I1 I2].
    rewrite I1, I2, H1, H3. split; [reflexivity |].
    now rewrite <- app_assoc.
Qed.

(** X9. A redraw paints layers.  On a canvas with a 2D context,
    [redrawCanvas] paints the background, then the shapes of each committed
    path, in commit order and each as if it were alone on the white
    background state, then, while a gesture is being drawn, the shapes of the
    in-progress path on top.  Without a canvas or without a context it paints
    nothing. *)
Theorem redraw_paints_layers (canvas : option HTMLCanvasElement) (s : State) :
  paint (redrawCanvas canvas s)
  = match canvas with
    | None => []
    | Some cv =>
        if has_context_2d cv then
          background cv
          ++ flat_map (shapes_of white_fill) (paths s)
          ++ match currentPath s with
             | Some cp => if isDrawing s then shapes_of white_fill cp else []
             | None => []
             end
        else []
    end.
Proof.
  destruct canvas as [cv |]; [| reflexivity].
  unfold redrawCanvas. destruct (has_context_2d cv); [| reflexivity].
  simpl negb. cbv iota.
  fold (background_ops cv).
  unfold paint. rewrite !run_ops_app, run_background.
  set (c := {| drawingState := white_fill; savedStates := [];
               currentSubpaths := []; bitmap := background cv |}).
  destruct (run_paths (paths s) c) as [P1 P2].
  assert (Hlast : forall cp,
            bitmap (run_ops (run_ops c (flat_map drawPath (paths s)))
                      (drawPath cp))
            = background cv ++ flat_map (shapes_of white_fill) (paths s)
              ++ shapes_of white_fill cp).
  { intros cp.
    destruct (run_drawPath (run_ops c (flat_map drawPath (paths s))) cp)
      as [_ [_ H3]].
    rewrite H3, P1, P2. simpl. now rewrite <- app_assoc. }
  destruct (currentPath s) as [cp |]; [destruct (isDrawing s) |].
  - apply Hlast.
  - simpl. rewrite P2. simpl. now rewrite !app_nil_r.
  - simpl. rewrite P2. simpl. now rewrite !app_nil_r.
Qed.

Lemma drawPath_leaves_context_witness :
  let c' := run_ops freshContext (drawPath bent_rectangle) in
  length (currentSubpaths c') = 3
  /\ length (bitmap c') = 2
  /\ skipn 2 (bitmap (run_ops c'
       (drawPath (triangle_circle "2" "#FF0000" 4 0))))
     = paint (drawPath (triangle_circle "2" "#FF0000" 4 0)).
Proof.
  pose proof (drawPath_leaves_context freshContext
                (triangle_circle "2" "#FF0000" 4 0)) as [_ [_ [_ H]]].
  split; [reflexivity |]. split; [reflexivity |].
  exact (H (run_ops freshContext (drawPath bent_rectangle)) eq_refl).
Defined.

Example redraw_erased_board :
  paint (redrawCanvas (Some sample_canvas) erased_board)
  = [ Cleared 0 0 800 600;
      FilledRect 0 0 800 600 white_fill;
      StrokedPath [MoveTo 10 10; LineTo 50 50]
        {| fillStyle := "#ffffff"; strokeStyle := "#000000"; lineWidth := 2;
           lineCap := "round"; lineJoin := "round";
           globalCompositeOperation := "source-over" |};
      StrokedPath [MoveTo 10 50; LineTo 50 10]
        {| fillStyle := "#ffffff"; strokeStyle := "#000000"; lineWidth := 12;
           lineCap := "round"; lineJoin := "round";
           globalCompositeOperation := "destination-out" |};
      StrokedPath [MoveTo 0 0; LineTo 0 100]
        {| fillStyle := "#ffffff"; strokeStyle := "#0000FF"; lineWidth := 12;
           lineCap := "round"; lineJoin := "round";
           globalCompositeOperation := "source-over" |} ].
Proof. vm_compute. reflexivity. Qed.

(** ** Identifiers and file names *)

Lemma string_length_append (a b : string) :
  String.length (a ++ b) = String.length a + String.length b.
Proof. induction a as [| c a IH]; simpl; [reflexivity | now rewrite IH]. Qed.

Lemma string_append_cancel_r (a b s : string) :
  (a ++ s = b ++ s)%string -> a = b.
Proof.
  revert b. induction a as [| c a IH]; intros [| d b] H; simpl in H.
  - reflexivity.
  - apply (f_equal String.length) in H. simpl in H.
    rewrite string_length_append in H. lia.
  - apply (f_equal String.length) in H. simpl in H.
    rewrite string_length_append in H. lia.
  - injection H as -> H. f_equal. now apply IH.
Qed.

Lemma to_int_not_nil (n : Z) :
  Z.to_int n <> Decimal.Pos Decimal.Nil
  /\ Z.to_int n <> Decimal.Neg Decimal.Nil.
Proof.
  split; intros H; pose proof (f_equal Z.of_int H) as H';
    rewrite DecimalZ.of_to in H'; simpl in H'; subst n;
    vm_compute in H; discriminate H.
Qed.

(** [Date.now().toString()] can be read back. *)
Lemma toString_parse (n : Z) :
  option_map Z.of_int (NilZero.int_of_string (toString n)) = Some n.
Proof.
  unfold toString. destruct (to_int_not_nil n) as [H1 H2].
  rewrite (NilZero.isi _ H1 H2). simpl. now rewrite DecimalZ.of_to.
Qed.

Lemma toString_injective (a b : Z) : toString a = toString b -> a = b.
Proof.
  intros H. pose proof (toString_parse a) as Ha.
  rewrite H, toString_parse in Ha. congruence.
Qed.

(** X14. Identifiers and file names are as distinct as the clock.  The id
    of a path is the decimal text of the time its gesture began, and the name
    of an exported image embeds the time of the export; both can be read
    back, so that two paths have the same id exactly when their gestures
    began in the same millisecond, and two exports get the same file name
    exactly when they were made in the same millisecond.  Without a canvas
    nothing is exported. *)
Theorem ids_and_file_names_follow_the_clock props
    c1 e1 (a1 b1 : Z) (s1 : State) c2 e2 (a2 b2 : Z) (s2 : State)
    (cv1 cv2 : HTMLCanvasElement) (url1 url2 : string) :
  isReadOnly props = false ->
  (forall p1 p2,
     currentPath (startDrawing props c1 e1 a1 b1 s1) = Some p1 ->
     currentPath (startDrawing props c2 e2 a2 b2 s2) = Some p2 ->
     (DrawingPath.id p1 = DrawingPath.id p2 <-> a1 = a2))
  /\ (forall l1 l2,
        downloadCanvas (Some cv1) a1 url1 = Some l1 ->
        downloadCanvas (Some cv2) a2 url2 = Some l2 ->
        (download l1 = download l2 <-> a1 = a2))
  /\ downloadCanvas None a1 url1 = None
  /\ option_map Z.of_int (NilZero.int_of_string (toString a1)) = Some a1.
Proof.
  intros Hro. split; [| split; [| split]].
  - intros p1 p2. unfold startDrawing. rewrite Hro. simpl.
    intros [= <-] [= <-]. simpl. split.
    + apply toString_injective.
    + now intros ->.
  - intros l1 l2. simpl. intros [= <-] [= <-]. simpl. split.
    + intros H. injection H as H.
      apply string_append_cancel_r in H. now apply toString_injective.
    + now intros ->.
  - reflexivity.
  - apply toString_parse.
Qed.

Lemma ids_and_file_names_follow_the_clock_witness :
  option_map download
    (downloadCanvas (Some sample_canvas) 1700000000000 "data:image/png;base64,")
  = Some "whiteboard-1700000000000.png"
  /\ (forall p1 p2,
        currentPath (startDrawing defaultProps None (mouse_at 0 0) 5 5
                       initialState) = Some p1 ->
        currentPath (startDrawing defaultProps (Some sample_canvas)
                       (mouse_at 9 9) 5 6 three_paths) = Some p2 ->
        DrawingPath.id p1 = DrawingPath.id p2).
Proof.
  split; [reflexivity |].
  intros p1 p2 H1 H2.
  pose proof (ids_and_file_names_follow_the_clock defaultProps
                None (mouse_at 0 0) 5 5 initialState
                (Some sample_canvas) (mouse_at 9 9) 5 6 three_paths
                sample_canvas sample_canvas "" "" eq_refl) as [H _].
  now apply (H p1 p2 H1 H2).
Defined.

(** ** The note-taking component *)

Lemma str_eqb_eq (a b : JSString) : str_eqb a b = true <-> a = b.
Proof.
  revert b. induction a as [| u a IH]; intros [| v b]; simpl;
    try (split; congruence).
  rewrite andb_true_iff, N.eqb_eq, IH. split.
  - intros [-> ->]. reflexivity.
  - intros H. now inversion H.
Qed.

Lemma str_eqb_refl (a : JSString) : str_eqb a a = true.
Proof. now apply str_eqb_eq. Qed.

Lemma str_eqb_neq (a b : JSString) : str_eqb a b = false <-> a <> b.
Proof.
  split.
  - intros H E. apply str_eqb_eq in E. congruence.
  - intros H. destruct (str_eqb a b) eqn:E; [| reflexivity].
    apply str_eqb_eq in E. contradiction.
Qed.

Lemma includes_In (tags : list JSString) (tag : JSString) :
  includes tags tag = true <-> In tag tags.
Proof.
  unfold includes. rewrite existsb_exists. split.
  - intros [x [Hin Heq]]. apply str_eqb_eq in Heq. now subst.
  - intros Hin. exists tag. split; [exact Hin | apply str_eqb_refl].
Qed.

Lemma includes_not_In (tags : list JSString) (tag : JSString) :
  includes tags tag = false <-> ~ In tag tags.
Proof.
  rewrite <- includes_In. destruct (includes tags tag); split; congruence.
Qed.

Lemma truthy_nonempty (s : JSString) : truthy s = true <-> s <> [].
Proof. destruct s; simpl; split; congruence. Qed.

(** *** Trimming *)

Lemma trimStart_fixed (s : JSString) :
  trimStart s = s <-> s = [] \/ exists u r, s = u :: r /\ is_white_space u = false.
Proof.
  split.
  - destruct s as [| u r]; [now left |]. simpl.
    destruct (is_white_space u) eqn:Hu.
    + intros H. exfalso.
      assert (Hlen : forall t, length (trimStart t) <= length t).
      { induction t as [| v t IH]; simpl; [lia |].
        destruct (is_white_space v); simpl; lia. }
      specialize (Hlen r). rewrite H in Hlen. simpl in Hlen. lia.
    + intros _. right. now exists u, r.
  - intros [-> | [u [r [-> Hu]]]]; [reflexivity |]. simpl. now rewrite Hu.
Qed.

Lemma trimStart_idempotent (s : JSString) :
  trimStart (trimStart s) = trimStart s.
Proof.
  induction s as [| u r IH]; [reflexivity |]. simpl.
  destruct (is_white_space u) eqn:Hu; [exact IH |].
  simpl. now rewrite Hu.
Qed.

Lemma trimStart_snoc (s : JSString) (u : N) :
  is_white_space u = false -> trimStart (s ++ [u]) = trimStart s ++ [u].
Proof.
  intros Hu. induction s as [| v r IH]; simpl.
  - now rewrite Hu.
  - destruct (is_white_space v); [exact IH | reflexivity].
Qed.

Lemma trimEnd_idempotent (s : JSString) : trimEnd (trimEnd s) = trimEnd s.
Proof.
  unfold trimEnd. now rewrite rev_involutive, trimStart_idempotent.
Qed.

(** Trimming the end keeps a first code unit that is not white space. *)
Lemma trimEnd_head (u : N) (r : JSString) :
  is_white_space u = false ->
  trimEnd (u :: r) = u :: rev (trimStart (rev r)).
Proof.
  intros Hu. unfold trimEnd. simpl rev.
  rewrite (trimStart_snoc _ _ Hu), rev_app_distr. reflexivity.
Qed.

Lemma trimEnd_nil : trimEnd [] = [].
Proof. reflexivity. Qed.

Lemma trim_idempotent (s : JSString) : trim (trim s) = trim s.
Proof.
  unfold trim.
  assert (Hfix : trimStart (trimEnd (trimStart s)) = trimEnd (trimStart s)).
  { apply trimStart_fixed.
    destruct (proj1 (trimStart_fixed (trimStart s)) (trimStart_idempotent s))
      as [-> | [u [r [-> Hu]]]].
    - now left.
    - right. rewrite (trimEnd_head u r Hu). eauto. }
  rewrite Hfix. apply trimEnd_idempotent.
Qed.

(** A string is blank for [trim] exactly when all its code units are white
    space. *)
Lemma trimStart_blank (s : JSString) :
  trimStart s = [] <-> forallb is_white_space s = true.
Proof.
  induction s as [| u r IH]; simpl; [tauto |].
  destruct (is_white_space u); simpl; [exact IH |].
  split; discriminate.
Qed.

Lemma trim_blank (s : JSString) :
  trim s = [] <-> forallb is_white_space s = true.
Proof.
  rewrite <- trimStart_blank. unfold trim. split.
  - intros H.
    destruct (proj1 (trimStart_fixed (trimStart s)) (trimStart_idempotent s))
      as [E | [u [r [E Hu]]]]; [exact E |].
    rewrite E, (trimEnd_head u r Hu) in H. discriminate.
  - intros ->. reflexivity.
Qed.

(** *** Selected tags *)

Lemma NoDup_snoc {A : Type} (l : list A) (x : A) :
  NoDup l -> ~ In x l -> NoDup (l ++ [x]).
Proof.
  intros Hnd Hx. induction Hnd as [| a l Ha Hnd IH]; simpl.
  - constructor; [intros [] | constructor].
  - constructor.
    + rewrite in_app_iff. simpl. intros [H | [H | []]]; [contradiction |].
      apply Hx. now left.
    + apply IH. intros H. apply Hx. now right.
Qed.

Lemma availableTags_well_formed : Forall well_formed_tag availableTags.
Proof. repeat constructor; discriminate. Qed.

Lemma filter_tags_not_in (t : JSString) (tags : list JSString) :
  ~ In t tags -> filter (fun tag => negb (str_eqb tag t)) tags = tags.
Proof.
  induction tags as [| a tags IH]; simpl; intros H; [reflexivity |].
  destruct (str_eqb a t) eqn:E.
  - apply str_eqb_eq in E. subst. exfalso. apply H. now left.
  - simpl. f_equal. apply IH. intros Hin. apply H. now right.
Qed.

Lemma filter_tags_In (t u : JSString) (tags : list JSString) :
  In u (filter (fun tag => negb (str_eqb tag t)) tags)
  <-> In u tags /\ u <> t.
Proof.
  rewrite filter_In, negb_true_iff, str_eqb_neq. tauto.
Qed.

Lemma filter_tags_length (t : JSString) (tags : list JSString) :
  NoDup tags -> In t tags ->
  S (length (filter (fun tag => negb (str_eqb tag t)) tags)) = length tags.
Proof.
  intros Hnd. induction Hnd as [| a tags Ha Hnd IH]; simpl; [tauto |].
  intros [-> | Hin].
  - rewrite str_eqb_refl. simpl. now rewrite filter_tags_not_in.
  - destruct (str_eqb a t) eqn:E.
    + apply str_eqb_eq in E. subst. contradiction.
    + simpl. f_equal. now apply IH.
Qed.

Lemma removeTag_invariant (t : JSString) (s : NoteState) :
  tags_invariant s -> tags_invariant (removeTag t s).
Proof.
  intros [Hnd Hwf]. split; simpl.
  - now apply NoDup_filter.
  - apply Forall_forall. intros u Hu. apply filter_tags_In in Hu.
    rewrite Forall_forall in Hwf. now apply Hwf.
Qed.

Lemma append_invariant (t : JSString) (s s' : NoteState) :
  tags_invariant s ->
  well_formed_tag t ->
  includes (selectedTags s) t = false ->
  selectedTags s' = selectedTags s ++ [t] ->
  tags_invariant s'.
Proof.
  intros [Hnd Hwf] Ht Hinc E. unfold tags_invariant. rewrite E. split.
  - apply NoDup_snoc; [exact Hnd | now apply includes_not_In].
  - apply Forall_app. split; [exact Hwf | now constructor].
Qed.

Lemma addNewTag_invariant (s : NoteState) :
  tags_invariant s -> tags_invariant (addNewTag s).
Proof.
  intros Hinv. unfold addNewTag.
  destruct (truthy (trim (newTag s))) eqn:Ht; [| exact Hinv].
  destruct (includes (selectedTags s) (trim (newTag s))) eqn:Hi;
    [exact Hinv |].
  simpl. apply (append_invariant (trim (newTag s)) s); auto.
  split; [now apply truthy_nonempty | apply trim_idempotent].
Qed.

Lemma noteStep_invariant props (ev : NoteEvent) (s : NoteState) :
  tags_invariant s ->
  tags_invariant (if noteEnabled ev s then noteHandle props ev s else s).
Proof.
  intros Hinv. destruct (noteEnabled ev s) eqn:En; [| exact Hinv].
  destruct ev; simpl; try exact Hinv.
  - unfold toggleTag.
    destruct (includes (selectedTags s) tag) eqn:Hi.
    + now apply removeTag_invariant.
    + unfold addTag. rewrite Hi.
      destruct (truthy tag); [| exact Hinv]. simpl.
      apply (append_invariant tag s); auto.
      unfold noteEnabled in En. apply includes_In in En.
      pose proof availableTags_well_formed as Hav.
      rewrite Forall_forall in Hav. now apply Hav.
  - destruct (str_eqb key (js "Enter")); [| exact Hinv].
    now apply addNewTag_invariant.
  - now apply addNewTag_invariant.
  - now apply removeTag_invariant.
  - split; simpl; constructor.
Qed.

(** X10. Selected tags stay distinct and well formed.  Whatever the user
    does on the write tab, starting from the mounted component, no tag is
    ever selected twice, no selected tag is empty, and no selected tag has
    white space at its start or at its end: badges add available tags only,
    and a custom tag is added trimmed, unless it is blank or already
    selected. *)
Theorem selected_tags_distinct_and_trimmed props (evs : list NoteEvent)
    (t : JSString) :
  let s := noteRun props evs (noteInitialState props) in
  NoDup (selectedTags s)
  /\ (In t (selectedTags s) -> t <> [] /\ trim t = t).
Proof.
  intros s.
  assert (Hinv : tags_invariant s).
  { subst s.
    assert (H0 : tags_invariant (noteInitialState props))
      by (split; constructor).
    revert H0. generalize (noteInitialState props).
    induction evs as [| ev evs IH]; intros s0 H0; simpl; [exact H0 |].
    apply IH. now apply noteStep_invariant. }
  destruct Hinv as [Hnd Hwf]. split; [exact Hnd |].
  rewrite Forall_forall in Hwf. apply Hwf.
Qed.

Lemma selected_tags_distinct_and_trimmed_witness :
  selectedTags
    (noteRun (Build_NoteTakingProps None None None) tagging_session
       (noteInitialState (Build_NoteTakingProps None None None)))
  = [js "Review"; js "exam prep"]
  /\ trim (js "exam prep") = js "exam prep".
Proof.
  pose proof (selected_tags_distinct_and_trimmed
                (Build_NoteTakingProps None None None) tagging_session
                (js "exam prep")) as [_ H].
  split; [reflexivity |].
  apply H. right; left. reflexivity.
Defined.

(** X11. [removeTag] removes the tag and nothing else.  After
    [removeTag(t)] the tag [t] is not selected; every other tag is selected
    exactly if it was, in the same order; the note, the title and the input
    are untouched.  If [t] was not selected the state is unchanged, and if
    the tags are distinct and [t] was selected there is exactly one tag
    less. *)
Theorem removeTag_removes_only_the_tag (t : JSString) (s : NoteState) :
  ~ In t (selectedTags (removeTag t s))
  /\ (forall u, u <> t ->
        (In u (selectedTags (removeTag t s)) <-> In u (selectedTags s)))
  /\ (forall u v, u <> t -> v <> t ->
        forall l1 l2 l3, selectedTags s = l1 ++ u :: l2 ++ v :: l3 ->
        exists m1 m2 m3,
          selectedTags (removeTag t s) = m1 ++ u :: m2 ++ v :: m3)
  /\ currentNote (removeTag t s) = currentNote s
  /\ noteTitle (removeTag t s) = noteTitle s
  /\ newTag (removeTag t s) = newTag s
  /\ (~ In t (selectedTags s) -> removeTag t s = s)
  /\ (NoDup (selectedTags s) -> In t (selectedTags s) ->
      S (length (selectedTags (removeTag t s))) = length (selectedTags s)).
Proof.
  split; [| split; [| split]].
  - simpl. rewrite filter_tags_In. tauto.
  - intros u Hu. simpl. rewrite filter_tags_In. tauto.
  - intros u v Hu Hv l1 l2 l3 E. simpl. rewrite E.
    rewrite filter_app. simpl.
    apply str_eqb_neq in Hu. apply str_eqb_neq in Hv.
    rewrite Hu. simpl. rewrite filter_app. simpl. rewrite Hv. simpl.
    eauto.
  - repeat split.
    + intros H. unfold removeTag. rewrite (filter_tags_not_in t _ H).
      now destruct s.
    + intros Hnd Hin. simpl. now apply filter_tags_length.
Qed.

Lemma removeTag_removes_only_the_tag_witness :
  let s := {| currentNote := js "draft"; noteTitle := js "t";
              selectedTags := [js "Summary"; js "exam"; js "Review"];
              newTag := js "x" |} in
  selectedTags (removeTag (js "exam") s) = [js "Summary"; js "Review"]
  /\ removeTag (js "Formula") s = s.
Proof.
  intros s.
  pose proof (removeTag_removes_only_the_tag (js "Formula") s)
    as [_ [_ [_ [_ [_ [_ [H _]]]]]]].
  split; [reflexivity |].
  apply H. simpl. intros [E | [E | [E | []]]]; discriminate E.
Defined.

(** X12. Clicking a badge twice.  If the tag of the badge was not selected,
    two clicks bring the state back exactly.  If it was selected (the tags
    being distinct), two clicks leave the same tags selected, as many as
    before, with that tag moved to the end of the list. *)
Theorem toggleTag_twice (tag : JSString) (s : NoteState) :
  tag <> [] ->
  (~ In tag (selectedTags s) -> toggleTag tag (toggleTag tag s) = s)
  /\ (In tag (selectedTags s) ->
      NoDup (selectedTags s) ->
      let s2 := toggleTag tag (toggleTag tag s) in
      selectedTags s2
      = filter (fun u => negb (str_eqb u tag)) (selectedTags s) ++ [tag]
      /\ (forall u, In u (selectedTags s2) <-> In u (selectedTags s))
      /\ length (selectedTags s2) = length (selectedTags s)
      /\ NoDup (selectedTags s2)).
Proof.
  intros Hne. apply truthy_nonempty in Hne. split.
  - intros Hnot.
    assert (Hi : includes (selectedTags s) tag = false)
      by now apply includes_not_In.
    unfold toggleTag at 2. rewrite Hi. unfold addTag. rewrite Hne, Hi.
    simpl andb. cbv iota.
    unfold toggleTag. simpl selectedTags.
    assert (Hi2 : includes (selectedTags s ++ [tag]) tag = true).
    { apply includes_In, in_or_app. right. now left. }
    rewrite Hi2. unfold removeTag. simpl.
    rewrite filter_app. simpl. rewrite str_eqb_refl. simpl.
    rewrite app_nil_r, (filter_tags_not_in tag _ Hnot).
    now destruct s.
  - intros Hin Hnd s2.
    assert (Hi : includes (selectedTags s) tag = true)
      by now apply includes_In.
    set (rest := filter (fun u => negb (str_eqb u tag)) (selectedTags s)).
    assert (Hrest : ~ In tag rest).
    { unfold rest. rewrite filter_tags_In. tauto. }
    assert (Hs2 : selectedTags s2 = rest ++ [tag]).
    { unfold s2. unfold toggleTag at 2. rewrite Hi.
      unfold toggleTag. simpl selectedTags. fold rest.
      rewrite (proj2 (includes_not_In rest tag) Hrest).
      unfold addTag. simpl selectedTags. fold rest.
      rewrite Hne, (proj2 (includes_not_In rest tag) Hrest). reflexivity. }
    split; [exact Hs2 |]. rewrite Hs2. split; [| split].
    + intros u. rewrite in_app_iff. unfold rest. rewrite filter_tags_In.
      simpl. split.
      * intros [[H _] | [<- | []]]; assumption.
      * intros H. destruct (str_eqb u tag) eqn:E.
        -- apply str_eqb_eq in E. subst. right. now left.
        -- apply str_eqb_neq in E. left. now split.
    + rewrite length_app. simpl. unfold rest.
      rewrite <- (filter_tags_length tag _ Hnd Hin). lia.
    + apply NoDup_snoc; [| exact Hrest]. unfold rest. now apply NoDup_filter.
Qed.

Lemma toggleTag_twice_witness :
  let s := {| currentNote := []; noteTitle := [];
              selectedTags := [js "Summary"; js "exam"; js "Review"];
              newTag := [] |} in
  toggleTag (js "Formula") (toggleTag (js "Formula") s) = s
  /\ selectedTags (toggleTag (js "Summary") (toggleTag (js "Summary") s))
     = [js "exam"; js "Review"; js "Summary"].
Proof.
  intros s.
  pose proof (toggleTag_twice (js "Formula") s ltac:(discriminate))
    as [H1 _].
  pose proof (toggleTag_twice (js "Summary") s ltac:(discriminate))
    as [_ H2].
  split.
  - apply H1. simpl. intros [E | [E | [E | []]]]; discriminate E.
  - destruct H2 as [H2 _]; [now left | | exact H2].
    repeat constructor; simpl; intros H;
      repeat destruct H as [H | H]; try discriminate H; exact H.
Defined.

(** X13. What the custom-tag input refuses.  If the input holds white space
    only (or nothing), or if its text, stripped of the white space around it,
    is already selected, then [addNewTag] changes nothing: no tag is added
    and the input keeps its text.  Otherwise exactly one tag is appended, the
    stripped text, which is then neither empty nor padded, and the input is
    cleared. *)
Theorem addNewTag_cases (s : NoteState) :
  (forallb is_white_space (newTag s) = true -> addNewTag s = s)
  /\ (In (trim (newTag s)) (selectedTags s) -> addNewTag s = s)
  /\ (forallb is_white_space (newTag s) = false ->
      ~ In (trim (newTag s)) (selectedTags s) ->
      selectedTags (addNewTag s) = selectedTags s ++ [trim (newTag s)]
      /\ newTag (addNewTag s) = []
      /\ trim (newTag s) <> []
      /\ trim (trim (newTag s)) = trim (newTag s)
      /\ currentNote (addNewTag s) = currentNote s
      /\ noteTitle (addNewTag s) = noteTitle s).
Proof.
  split; [| split].
  - intros Hb. apply trim_blank in Hb. unfold addNewTag. now rewrite Hb.
  - intros Hin. apply includes_In in Hin. unfold addNewTag. rewrite Hin.
    now rewrite andb_false_r.
  - intros Hb Hnot.
    assert (Hne : trim (newTag s) <> []).
    { intros E. apply trim_blank in E. congruence. }
    unfold addNewTag.
    rewrite (proj2 (truthy_nonempty _) Hne).
    rewrite (proj2 (includes_not_In _ _) Hnot). simpl.
    repeat split; [exact Hne | apply trim_idempotent].
Qed.

Lemma addNewTag_cases_witness :
  let s := {| currentNote := js "draft"; noteTitle := js "t";
              selectedTags := [js "Summary"; js "exam"];
              newTag := js "  exam " |} in
  let s' := {| currentNote := js "draft"; noteTitle := js "t";
               selectedTags := [js "Summary"; js "exam"];
               newTag := js "  mid term " |} in
  addNewTag s = s
  /\ selectedTags (addNewTag s') = [js "Summary"; js "exam"; js "mid term"]
  /\ newTag (addNewTag s') = [].
Proof.
  intros s s'.
  pose proof (addNewTag_cases s) as [_ [H2 _]].
  pose proof (addNewTag_cases s') as [_ [_ H3]].
  split; [apply H2; right; left; reflexivity |].
  destruct H3 as [H3 [H4 _]]; [reflexivity | | now split].
  simpl. intros [E | [E | []]]; discriminate E.
Defined.

(** *** Saving *)

Lemma forallb_false_exists {A : Type} (f : A -> bool) (l : list A) :
  forallb f l = false <-> exists x, In x l /\ f x = false.
Proof.
  induction l as [| a l IH]; simpl.
  - split; [discriminate | intros [x [[] _]]].
  - rewrite andb_false_iff, IH. split.
    + intros [H | [x [Hin Hx]]]; [exists a | exists x]; auto.
    + intros [x [[<- | Hin] Hx]]; [now left | right; now exists x].
Qed.

(** X15. The save button.  It is enabled exactly when the note holds a code
    unit that is not white space.  A save empties the note and the selected
    tags, puts the title back to the one the component was mounted with and
    keeps the text of the custom-tag input; the button is disabled right
    after it, so that a second click on it, whatever follows, has no
    effect. *)
Theorem save_needs_a_non_blank_note props (s : NoteState)
    (evs : list NoteEvent) :
  (noteEnabled saveClicked s = true <->
     exists u, In u (currentNote s) /\ is_white_space u = false)
  /\ noteEnabled saveClicked (saveNote props s) = false
  /\ currentNote (saveNote props s) = []
  /\ selectedTags (saveNote props s) = []
  /\ noteTitle (saveNote props s) = noteTitle (noteInitialState props)
  /\ newTag (saveNote props s) = newTag s
  /\ noteRun props (saveClicked :: saveClicked :: evs) s
     = noteRun props (saveClicked :: evs) s.
Proof.
  split; [| repeat split].
  - unfold noteEnabled. rewrite truthy_nonempty, <- forallb_false_exists.
    split.
    + intros H. destruct (forallb is_white_space (currentNote s)) eqn:E;
        [| reflexivity].
      apply trim_blank in E. contradiction.
    + intros H E. apply trim_blank in E. congruence.
  - simpl. destruct (truthy (trim (currentNote s))) eqn:E; simpl;
      rewrite ?E; reflexivity.
Qed.

Lemma save_needs_a_non_blank_note_witness :
  let s := {| currentNote := js "  x "; noteTitle := js "t";
              selectedTags := [js "Summary"]; newTag := js "y" |} in
  noteEnabled saveClicked s = true
  /\ noteEnabled saveClicked
       {| currentNote := js "   "; noteTitle := []; selectedTags := [];
          newTag := [] |} = false.
Proof.
  intros s.
  pose proof (save_needs_a_non_blank_note
                (Build_NoteTakingProps None None None) s []) as [H _].
  split; [| reflexivity].
  apply H. exists 120%N. split; [| reflexivity].
  simpl. tauto.
Defined.
